(** * Stadium Creator: the grid editors and their undo history

    [src/app.js] holds two editors that share one idea, a square grid of
    typed tiles painted with the pointer, undone from a bounded history of
    JSON snapshots:

    - the flat editor (lines 1-204), whose model is a dense array of cells,
      embedded in [Module Flat];
    - the three.js editor (lines 206-555), whose model is a sparse list of
      placed items, embedded in [Module Scene3D].

    Each editor is a set of event listeners over module-level variables.  The
    embedding makes those variables one [state] record and every listener a
    function on it; an [event] type names the listeners and [run] plays a
    list of events.  What is drawn (DOM nodes, meshes, camera) is left out,
    except for what the listeners read back. *)

From Stdlib Require Import ZArith QArith Qround Qminmax Lia Lqa.
From stdpp Require Import base option list strings.

Open Scope Z_scope.

(** ** What both editors share *)

(** The tools of the tool bar ([data-tool] of the [.tool] buttons). *)
Inductive tool := pitch | stand | dugout | flag | erase | select.

#[global] Instance tool_eq_dec : EqDecision tool.
Proof. solve_decision. Defined.

(** The string a tool is in the source. *)
Definition tool_name (t : tool) : string :=
  match t with
  | pitch => "pitch"
  | stand => "stand"
  | dugout => "dugout"
  | flag => "flag"
  | erase => "erase"
  | select => "select"
  end.

(** The tools that reach the final [else] of the tool dispatch. *)
Definition is_paint (t : tool) : bool :=
  match t with
  | erase | select => false
  | _ => true
  end.

(** JSON text, held as the tree it denotes: [JSON.stringify] is embedded as
    the map from a value to the tree of the text it prints, [JSON.parse] as
    the map from that tree to the value it builds.  Numbers are exact
    rationals; the non-finite doubles are not modelled. *)
#[warnings="-register-all"]
Inductive json :=
| JNull
| JBool (b : bool)
| JNum (q : Q)
| JStr (s : string)
| JArr (elems : list json)
| JObj (fields : list (string * json)).

(** Reading a key of a parsed object; of a repeated key the last one counts. *)
Fixpoint field (k : string) (fs : list (string * json)) : option json :=
  match fs with
  | [] => None
  | (k', v) :: fs' =>
      match field k fs' with
      | Some w => Some w
      | None => if decide (k = k') then Some v else None
      end
  end.

(** A JSON number read where the program expects an integer. *)
Definition as_int (j : json) : option Z :=
  match j with
  | JNum q => if decide (Zpos (Qden q) = 1) then Some (Qnum q) else None
  | _ => None
  end.

Definition as_str (j : json) : option string :=
  match j with
  | JStr s => Some s
  | _ => None
  end.

(** [parseInt(v, 10) || d]: [None] is NaN; NaN and 0 are falsy. *)
Definition or_default (v : option Z) (d : Z) : Z :=
  match v with
  | Some z => if decide (z = 0) then d else z
  | None => d
  end.

(** [parseFloat(v) || d], on finite values. *)
Definition or_default_Q (v : option Q) (d : Q) : Q :=
  match v with
  | Some q => if decide (Qnum q = 0) then d else q
  | None => d
  end.

(** [history.push(x); if(history.length>cap) history.shift();]
    The newest snapshot is the last element of the list. *)
Definition push_capped {A} (cap : nat) (x : A) (h : list A) : list A :=
  let h' := h ++ [x] in
  if (cap <? length h')%nat then tail h' else h'.

(** [history.pop()]: the last element and what is left, if there is one. *)
Definition pop {A} (h : list A) : option (A * list A) :=
  match last h with
  | Some x => Some (x, removelast h)
  | None => None
  end.

(** Pushing a list of snapshots, oldest first. *)
Definition pushes {A} (cap : nat) (xs : list A) (h : list A) : list A :=
  fold_left (fun acc x => push_capped cap x acc) xs h.

(** ** The flat editor (lines 1-204) *)

Module Flat.

(** A value of [model.cells].  The source puts two shapes there: objects
    [{type, prevType?}] and, when a selection is toggled off, the bare string
    that [prevType] held.  [prevType] is what reading [.prevType] returns,
    [None] for [undefined]: a key that is absent and a key that holds
    [undefined] read alike, and [JSON.stringify] prints neither. *)
Inductive cell :=
| Tile (type : string) (prevType : option string)
| Bare (s : string).

#[global] Instance cell_eq_dec : EqDecision cell.
Proof. solve_decision. Defined.

(** [c.type]; a string has no such property. *)
Definition cell_type (c : cell) : option string :=
  match c with
  | Tile t _ => Some t
  | Bare _ => None
  end.

(** [c.prevType]. *)
Definition cell_prevType (c : cell) : option string :=
  match c with
  | Tile _ p => p
  | Bare _ => None
  end.

Record GridModel := Model { n : Z; cells : list cell }.

(** Lines 20-23. *)
Definition createEmptyModel (n : Z) : GridModel :=
  Model n (replicate (Z.to_nat (n * n)) (Tile "empty" None)).

(** [JSON.stringify(model)]. *)
Definition stringify_cell (c : cell) : json :=
  match c with
  | Tile t None => JObj [("type", JStr t)]
  | Tile t (Some p) => JObj [("type", JStr t); ("prevType", JStr p)]
  | Bare s => JStr s
  end.

Definition JSON_stringify (m : GridModel) : json :=
  JObj [("n", JNum (inject_Z (n m)));
        ("cells", JArr (map stringify_cell (cells m)))].

(** [JSON.parse(prev)], read back as a model; [None] when the tree is not
    one that [JSON_stringify] prints. *)
Definition parse_cell (j : json) : option cell :=
  match j with
  | JStr s => Some (Bare s)
  | JObj fs =>
      match field "type" fs with
      | Some (JStr t) =>
          match field "prevType" fs with
          | None => Some (Tile t None)
          | Some (JStr p) => Some (Tile t (Some p))
          | Some _ => None
          end
      | _ => None
      end
  | _ => None
  end.

Definition JSON_parse (j : json) : option GridModel :=
  match j with
  | JObj fs =>
      n ← field "n" fs ≫= as_int;
      cs ← field "cells" fs;
      match cs with
      | JArr elems => Model n <$> mapM parse_cell elems
      | _ => None
      end
  | _ => None
  end.

(** The module-level variables.  [pointerUpBound] says whether [onPointerUp]
    is registered on [window].  [placed] is a ghost: the calls of
    [handleCellAction] so far, each with the tool it ran with and the cell
    index, oldest first; nothing reads it. *)
Record state := State {
  gridSize : Z;
  cellPx : Z;
  currentTool : tool;
  model : GridModel;
  history : list json;
  isPointerDown : bool;
  pointerTool : option tool;
  pointerUpBound : bool;
  placed : list (tool * nat)
}.

Definition set_currentTool (t : tool) (s : state) : state :=
  State (gridSize s) (cellPx s) t (model s) (history s)
        (isPointerDown s) (pointerTool s) (pointerUpBound s) (placed s).

Definition set_model (m : GridModel) (s : state) : state :=
  State (gridSize s) (cellPx s) (currentTool s) m (history s)
        (isPointerDown s) (pointerTool s) (pointerUpBound s) (placed s).

Definition set_history (h : list json) (s : state) : state :=
  State (gridSize s) (cellPx s) (currentTool s) (model s) h
        (isPointerDown s) (pointerTool s) (pointerUpBound s) (placed s).

Definition set_pointer (down : bool) (t : option tool) (bound : bool)
    (s : state) : state :=
  State (gridSize s) (cellPx s) (currentTool s) (model s) (history s)
        down t bound (placed s).

Definition log_placed (t : tool) (idx : nat) (s : state) : state :=
  State (gridSize s) (cellPx s) (currentTool s) (model s) (history s)
        (isPointerDown s) (pointerTool s) (pointerUpBound s)
        (placed s ++ [(t, idx)]).

(** Lines 14-18 and 54-55, from the two input fields as [parseInt] reads
    them. *)
Definition init (sizeInput pxInput : option Z) : state :=
  let gridSize := or_default sizeInput 24 in
  let cellPx := or_default pxInput 18 in
  State gridSize cellPx pitch (createEmptyModel gridSize) [] false None false [].

(** Lines 25-28. *)
Definition saveHistory (s : state) : state :=
  set_history (push_capped 100 (JSON_stringify (model s)) (history s)) s.

(** Line 81: the selection toggle.
    [c.type==='selected' ? c.prevType || {type:'empty'}
                         : {type:'selected', prevType: c.type}]
    The empty string is falsy, like [undefined]. *)
Definition select_toggle (c : cell) : cell :=
  if decide (cell_type c = Some "selected")
  then match cell_prevType c with
       | Some p => if decide (p = "") then Tile "empty" None else Bare p
       | None => Tile "empty" None
       end
  else Tile "selected" (cell_type c).

(** Lines 74-87.  [applyGridStyles] gives every cell element an index below
    [gridSize*gridSize]; on an index that [model.cells] does not have the
    result is [None] (no element carries one; JavaScript would grow the array
    or, for select, raise). *)
Definition handleCellAction (idx : nat) (s : state) : option state :=
  let s1 := saveHistory s in
  old ← cells (model s1) !! idx;
  let t :=
    if decide (currentTool s1 = erase) then Tile "empty" None
    else if decide (currentTool s1 = select) then select_toggle old
    else Tile (tool_name (currentTool s1)) None in
  Some (log_placed (currentTool s1) idx
          (set_model (Model (n (model s1)) (<[idx := t]> (cells (model s1)))) s1)).

(** Lines 57-62. *)
Definition onPointerDown (idx : nat) (s : state) : option state :=
  let s1 := set_pointer true (Some (currentTool s)) (pointerUpBound s) s in
  s2 ← handleCellAction idx s1;
  Some (set_pointer (isPointerDown s2) (pointerTool s2) true s2).

(** Lines 63-67. *)
Definition onPointerEnter (idx : nat) (s : state) : option state :=
  if isPointerDown s && bool_decide (pointerTool s = Some (currentTool s))
  then handleCellAction idx s
  else Some s.

(** Lines 68-72. *)
Definition onPointerUp (s : state) : state :=
  set_pointer false None false s.

(** Lines 90-96 and 196-199: a tool button, or [selectTool]. *)
Definition selectTool (name : tool) (s : state) : state :=
  set_currentTool name s.

(** Lines 98-105. *)
Definition resizeBtn_click (sizeInput pxInput : option Z) (s : state) : state :=
  let n := Z.max 8 (Z.min 64 (or_default sizeInput 24)) in
  let px := Z.max 8 (Z.min 64 (or_default pxInput 18)) in
  State n px (currentTool s) (createEmptyModel n) []
        (isPointerDown s) (pointerTool s) (pointerUpBound s) (placed s).

(** Lines 107-112. *)
Definition undoBtn_click (s : state) : option state :=
  if decide (length (history s) = 0%nat) then Some s
  else
    '(prev, rest) ← pop (history s);
    m ← JSON_parse prev;
    Some (set_model m (set_history rest s)).

(** Lines 114-118. *)
Definition clearBtn_click (s : state) : state :=
  let s1 := saveHistory s in
  set_model (createEmptyModel (gridSize s1)) s1.

(** Lines 184-194. *)
Definition onKeyDown (key : string) (ctrlOrMeta : bool) (s : state)
    : option state :=
  if bool_decide (key = "z") && ctrlOrMeta then undoBtn_click s
  else if bool_decide (key = "e") then Some (selectTool erase s)
  else if bool_decide (key = "p") then Some (selectTool pitch s)
  else if bool_decide (key = "s") then Some (selectTool stand s)
  else Some s.

(** What can happen to the page.  Pointer events come from a cell element,
    named by its [data-idx]. *)
Inductive event :=
| PointerDown (idx : nat)
| PointerEnter (idx : nat)
| PointerUp
| ToolClick (t : tool)
| KeyDown (key : string) (ctrlOrMeta : bool)
| ResizeClick (sizeInput pxInput : option Z)
| UndoClick
| ClearClick.

(** Lines 40-51: the cell elements that exist. *)
Definition rendered (idx : nat) (s : state) : bool :=
  bool_decide (idx < Z.to_nat (gridSize s * gridSize s))%nat.

(** One event; [None] when no element could have raised it. *)
Definition step (e : event) (s : state) : option state :=
  match e with
  | PointerDown idx => if rendered idx s then onPointerDown idx s else None
  | PointerEnter idx => if rendered idx s then onPointerEnter idx s else None
  | PointerUp => Some (if pointerUpBound s then onPointerUp s else s)
  | ToolClick t => Some (selectTool t s)
  | KeyDown key ctrlOrMeta => onKeyDown key ctrlOrMeta s
  | ResizeClick sizeInput pxInput => Some (resizeBtn_click sizeInput pxInput s)
  | UndoClick => undoBtn_click s
  | ClearClick => Some (clearBtn_click s)
  end.

Fixpoint run (evs : list event) (s : state) : option state :=
  match evs with
  | [] => Some s
  | e :: evs' => step e s ≫= run evs'
  end.

Definition reachable (s : state) : Prop :=
  ∃ sizeInput pxInput evs, run evs (init sizeInput pxInput) = Some s.

(** The events of one stroke after its pointer-down: anything but another
    pointer-down or the pointer-up. *)
Definition in_stroke (e : event) : bool :=
  match e with
  | PointerDown _ | PointerUp => false
  | _ => true
  end.

(** Every cell action of a stroke runs with the tool that was selected at
    its pointer-down. *)
Definition stroke_keeps_tool : Prop :=
  ∀ s idx s1 evs s2,
    step (PointerDown idx) s = Some s1 →
    forallb in_stroke evs = true →
    run evs s1 = Some s2 →
    ∃ acts, placed s2 = placed s ++ acts ∧
            Forall (λ a, a.1 = currentTool s) acts.

(** A snapshot that reads back as a grid of dimension [g]. *)
Definition snapshot_ok (g : Z) (j : json) : Prop :=
  ∃ m, JSON_parse j = Some m ∧ n m = g ∧
       length (cells m) = Z.to_nat (g * g).

(** What every state the editor gets into satisfies. *)
Record Inv (s : state) : Prop := {
  inv_n : n (model s) = gridSize s;
  inv_cells : length (cells (model s)) = Z.to_nat (gridSize s * gridSize s);
  inv_history_length : (length (history s) ≤ 100)%nat;
  inv_history : Forall (snapshot_ok (gridSize s)) (history s)
}.

(** The pointer variables move together: [onPointerUp] is registered exactly
    while the pointer is held, and a tool is recorded exactly then. *)
Definition pointer_flags_agree (s : state) : Prop :=
  pointerUpBound s = isPointerDown s ∧
  (pointerTool s = None ↔ isPointerDown s = false).

(** A cell action with a given tool, as a tool button followed by a
    pointer-down on the cell runs it. *)
Fixpoint act_all (acts : list (tool * nat)) (s : state) : option state :=
  match acts with
  | [] => Some s
  | (t, idx) :: acts' => handleCellAction idx (selectTool t s) ≫= act_all acts'
  end.

(** The undo button pressed [k] times. *)
Fixpoint undo_times (k : nat) (s : state) : option state :=
  match k with
  | O => Some s
  | S k' => undoBtn_click s ≫= undo_times k'
  end.

(** Lines 120-132: the exported document and the name of the download.
    [name] is the value of the name field, [created] the ISO date of the
    moment; an empty name is falsy. *)
Definition exportJson_payload (name created : string) (s : state) : json :=
  JObj [("meta", JObj [("name", JStr (if decide (name = "") then "My Stadium"
                                      else name));
                       ("created", JStr created)]);
        ("n", JNum (inject_Z (n (model s))));
        ("cells", JArr (map stringify_cell (cells (model s))))].

Definition exportJson_download (name : string) : string :=
  (if decide (name = "") then "stadium" else name) +:+ ".json".

(** An entry of [model.cells] that is a tile object, not a bare string. *)
Definition is_tile (c : cell) : bool :=
  match c with
  | Tile _ _ => true
  | Bare _ => false
  end.

(** A call on the 2D canvas context, with the [fillStyle] or [strokeStyle]
    it is made under.  The squares of the cells have integer corners and
    sides.  [FillMarker] is the call of line 165,
    [fillRect(px+cellPx*0.35, py+cellPx*0.15, cellPx*0.3, cellPx*0.3)], whose
    arguments are products and sums in doubles: it is kept by the integers
    they are computed from. *)
Inductive draw :=
| FillRect (style : string) (x y w h : Z)
| FillMarker (style : string) (px py cellPx : Z)
| StrokeRect (style : string) (x y w h : Z).

(** Lines 147-173: what the loop body draws for column [x], row [y]. *)
Definition draw_cell (cellPx : Z) (x y : nat) (item : cell) : list draw :=
  let px := Z.of_nat x * cellPx in
  let py := Z.of_nat y * cellPx in
  (if decide (cell_type item = Some "pitch")
   then [FillRect "#10784a" px py cellPx cellPx]
   else if decide (cell_type item = Some "stand")
   then [FillRect "#7a5b3b" px py cellPx cellPx]
   else if decide (cell_type item = Some "dugout")
   then [FillRect "#304050" px py cellPx cellPx]
   else if decide (cell_type item = Some "flag")
   then [FillRect "#f4d03f" px py cellPx cellPx;
         FillMarker "#e01b24" px py cellPx]
   else [FillRect "#07211a" px py cellPx cellPx])
  ++ [StrokeRect "rgba(255,255,255,0.03)" px py cellPx cellPx].

(** Lines 137-138 and 143: [canvas.width = v] followed by a read of
    [canvas.width].  The attribute is an unsigned long that reflects a
    content attribute limited to 0 .. 2147483647: the value is taken modulo
    2^32 and, when it is then above 2147483647, replaced by the default of
    the attribute (300 for the width of a canvas, 150 for its height). *)
Definition canvas_reflect (dflt v : Z) : Z :=
  let u := v `mod` 4294967296 in
  if decide (u ≤ 2147483647) then u else dflt.

(** Lines 134-176: the calls that paint the canvas, in order; [None] when a
    cell that the loops ask for is missing ([item.type] would raise). *)
Definition exportImage (s : state) : option (list draw) :=
  let g := Z.to_nat (gridSize s) in
  let width := canvas_reflect 300 (gridSize s * cellPx s) in
  let height := canvas_reflect 150 (gridSize s * cellPx s) in
  rows ← mapM (λ y,
            mapM (λ x, draw_cell (cellPx s) x y <$>
                         cells (model s) !! (y * g + x)%nat)
                 (seq 0 g))
          (seq 0 g);
  Some (FillRect "#07311f" 0 0 width height :: concat (concat rows)).

End Flat.

(** ** The three.js editor (lines 206-555) *)

Module Scene3D.

(** An entry of [model.items], and the [userData] of a placed mesh. *)
Record item := Item { type : string; ix : Z; iz : Z }.

#[global] Instance item_eq_dec : EqDecision item.
Proof. solve_decision. Defined.

Record GridModel := Model { n : Z; cell : Q; items : list item }.

(** A point of the placement plane; only [x] and [z] are read. *)
Record point := Point { x : Q; z : Q }.

(** [JSON.stringify(model)]. *)
Definition stringify_item (it : item) : json :=
  JObj [("type", JStr (type it));
        ("ix", JNum (inject_Z (ix it)));
        ("iz", JNum (inject_Z (iz it)))].

Definition JSON_stringify (m : GridModel) : json :=
  JObj [("n", JNum (inject_Z (n m)));
        ("cell", JNum (cell m));
        ("items", JArr (map stringify_item (items m)))].

(** [JSON.parse(prev)], read back as a model; [None] when the tree is not
    one that [JSON_stringify] prints. *)
Definition parse_item (j : json) : option item :=
  match j with
  | JObj fs =>
      t ← field "type" fs ≫= as_str;
      i ← field "ix" fs ≫= as_int;
      k ← field "iz" fs ≫= as_int;
      Some (Item t i k)
  | _ => None
  end.

Definition JSON_parse (j : json) : option GridModel :=
  match j with
  | JObj fs =>
      n ← field "n" fs ≫= as_int;
      c ← field "cell" fs;
      its ← field "items" fs;
      match c, its with
      | JNum q, JArr elems => Model n q <$> mapM parse_item elems
      | _, _ => None
      end
  | _ => None
  end.

(** The module-level variables.  [placementGroup] keeps the [userData] of
    each child mesh, in the order the meshes were added.  [placed] is a
    ghost: the model edits that [handlePointerEvent] made so far, each with
    the tool it ran with and the grid cell, oldest first; nothing reads it. *)
Record state := State {
  gridSize : Z;
  cellSize : Q;
  currentTool : tool;
  model : GridModel;
  history : list json;
  isPointerDown : bool;
  placementGroup : list item;
  placed : list (tool * (Z * Z))
}.

Definition set_currentTool (t : tool) (s : state) : state :=
  State (gridSize s) (cellSize s) t (model s) (history s)
        (isPointerDown s) (placementGroup s) (placed s).

Definition set_model (m : GridModel) (s : state) : state :=
  State (gridSize s) (cellSize s) (currentTool s) m (history s)
        (isPointerDown s) (placementGroup s) (placed s).

Definition set_history (h : list json) (s : state) : state :=
  State (gridSize s) (cellSize s) (currentTool s) (model s) h
        (isPointerDown s) (placementGroup s) (placed s).

Definition set_isPointerDown (b : bool) (s : state) : state :=
  State (gridSize s) (cellSize s) (currentTool s) (model s) (history s)
        b (placementGroup s) (placed s).

Definition set_placementGroup (g : list item) (s : state) : state :=
  State (gridSize s) (cellSize s) (currentTool s) (model s) (history s)
        (isPointerDown s) g (placed s).

Definition log_placed (t : tool) (c : Z * Z) (s : state) : state :=
  State (gridSize s) (cellSize s) (currentTool s) (model s) (history s)
        (isPointerDown s) (placementGroup s) (placed s ++ [(t, c)]).

(** Lines 248-249, 286-287, 295, 414 and 549, from the two input fields as
    [parseInt] and [parseFloat] read them. *)
Definition init (sizeInput : option Z) (cellInput : option Q) : state :=
  let gridSize := or_default sizeInput 24 in
  let cellSize := or_default_Q cellInput 2 in
  State gridSize cellSize pitch (Model gridSize cellSize []) [] false [] [].

(** Lines 289-292. *)
Definition saveHistory (s : state) : state :=
  set_history (push_capped 200 (JSON_stringify (model s)) (history s)) s.

(** Lines 348-357, in exact arithmetic.  The function reads the module-level
    [model]; here it is an argument.  The source divides and adds in
    doubles, whose rounding can move the floor by one when the sum is next to
    an integer; [coords_of_floors] below takes the floors as they come. *)
Definition getGridCoordsFromIntersection (m : GridModel) (p : point) : Z * Z :=
  let x := Qfloor (x p / cell m + (1 # 100000)) in
  let z := Qfloor (z p / cell m + (1 # 100000)) in
  let ix := Z.max 0 (Z.min (n m - 1) x) in
  let iz := Z.max 0 (Z.min (n m - 1) z) in
  (ix, iz).

(** Lines 359-363. *)
Definition worldPositionFromGrid (m : GridModel) (ix iz : Z) : point :=
  let x := (inject_Z ix * cell m)%Q in
  let z := (inject_Z iz * cell m)%Q in
  Point (x + cell m / 2) (z + cell m / 2).

(** [it => !(it.ix === ix && it.iz === iz)] of lines 369 and 385. *)
Definition elsewhere (ix0 iz0 : Z) (it : item) : Prop :=
  ¬ (ix it = ix0 ∧ iz it = iz0).

#[global] Instance elsewhere_dec ix0 iz0 it : Decision (elsewhere ix0 iz0 it).
Proof. unfold elsewhere. apply _. Defined.

(** Lines 365-380, for the four types that have a mesh, the only ones it is
    called with.  The new mesh joins [placementGroup]; the meshes already
    there stay. *)
Definition addItem (type : string) (ix iz : Z) (s : state) : state :=
  let s1 := saveHistory s in
  let m := model s1 in
  let kept := filter (elsewhere ix iz) (items m) in
  let s2 := set_placementGroup (placementGroup s1 ++ [Item type ix iz]) s1 in
  set_model (Model (n m) (cell m) (kept ++ [Item type ix iz])) s2.

(** Lines 382-393. *)
Definition removeItemAt (ix iz : Z) (s : state) : state :=
  let s1 := saveHistory s in
  let m := model s1 in
  let s2 := set_model (Model (n m) (cell m) (filter (elsewhere ix iz) (items m))) s1 in
  set_placementGroup (filter (elsewhere ix iz) (placementGroup s2)) s2.

(** Lines 396-411: one mesh per item of the model. *)
Definition rebuildPlacementGroup (s : state) : state :=
  set_placementGroup (items (model s)) s.

(** Lines 436-439: the grid cell under a point of the placement plane, which
    is centred on the origin. *)
Definition hit_cell (m : GridModel) (p : point) : Z * Z :=
  getGridCoordsFromIntersection m
    (Point (x p + (inject_Z (n m) * cell m) / 2 - cell m / 2)
           (z p + (inject_Z (n m) * cell m) / 2 - cell m / 2)).

(** Lines 427-454.  [hit] is the first intersection of the pointer ray with
    the placement plane, [None] when the ray misses it.  The select branch
    only rescales a mesh for 140 ms and leaves the model alone. *)
Definition handlePointerEvent (hit : option point) (s : state) : state :=
  match hit with
  | None => s
  | Some p =>
      let c := hit_cell (model s) p in
      if decide (currentTool s = erase)
      then log_placed erase c (removeItemAt c.1 c.2 s)
      else if decide (currentTool s = select) then s
      else log_placed (currentTool s) c
             (addItem (tool_name (currentTool s)) c.1 c.2 s)
  end.

(** Lines 415-418. *)
Definition onPointerDown (hit : option point) (s : state) : state :=
  handlePointerEvent hit (set_isPointerDown true s).

(** Line 419. *)
Definition onPointerUp (s : state) : state :=
  set_isPointerDown false s.

(** Lines 420-425. *)
Definition onPointerMove (hit : option point) (s : state) : state :=
  if isPointerDown s && bool_decide (currentTool s ≠ select)
  then handlePointerEvent hit s
  else s.

(** Lines 296-302. *)
Definition tool_click (t : tool) (s : state) : state :=
  set_currentTool t s.

(** Lines 457-468. *)
Definition resizeBtn_click (sizeInput : option Z) (cellInput : option Q)
    (s : state) : state :=
  let n := Z.max 8 (Z.min 128 (or_default sizeInput 24)) in
  let cell := Qmax (1 # 2) (Qmin 8 (or_default_Q cellInput 2)) in
  rebuildPlacementGroup
    (State n cell (currentTool s) (Model n cell []) []
           (isPointerDown s) (placementGroup s) (placed s)).

(** Lines 471-478. *)
Definition undoBtn_click (s : state) : option state :=
  if decide (length (history s) = 0%nat) then Some s
  else
    '(prev, rest) ← pop (history s);
    m ← JSON_parse prev;
    Some (rebuildPlacementGroup (set_model m (set_history rest s))).

(** Lines 480-484. *)
Definition clearBtn_click (s : state) : state :=
  let s1 := saveHistory s in
  let m := model s1 in
  set_placementGroup [] (set_model (Model (n m) (cell m) []) s1).

Inductive event :=
| PointerDown (hit : option point)
| PointerMove (hit : option point)
| PointerUp
| ToolClick (t : tool)
| ResizeClick (sizeInput : option Z) (cellInput : option Q)
| UndoClick
| ClearClick.

Definition step (e : event) (s : state) : option state :=
  match e with
  | PointerDown hit => Some (onPointerDown hit s)
  | PointerMove hit => Some (onPointerMove hit s)
  | PointerUp => Some (onPointerUp s)
  | ToolClick t => Some (tool_click t s)
  | ResizeClick sizeInput cellInput => Some (resizeBtn_click sizeInput cellInput s)
  | UndoClick => undoBtn_click s
  | ClearClick => Some (clearBtn_click s)
  end.

Fixpoint run (evs : list event) (s : state) : option state :=
  match evs with
  | [] => Some s
  | e :: evs' => step e s ≫= run evs'
  end.

Definition reachable (s : state) : Prop :=
  ∃ sizeInput cellInput evs, run evs (init sizeInput cellInput) = Some s.

Definition in_stroke (e : event) : bool :=
  match e with
  | PointerDown _ | PointerUp => false
  | _ => true
  end.

(** Every edit of a stroke runs with the tool that was selected at its
    pointer-down. *)
Definition stroke_keeps_tool : Prop :=
  ∀ s hit s1 evs s2,
    step (PointerDown hit) s = Some s1 →
    forallb in_stroke evs = true →
    run evs s1 = Some s2 →
    ∃ acts, placed s2 = placed s ++ acts ∧
            Forall (λ a, a.1 = currentTool s) acts.

(** What every state the editor gets into satisfies: the history is within
    its capacity and each snapshot reads back as a model. *)
Record Inv (s : state) : Prop := {
  inv_history_length : (length (history s) ≤ 200)%nat;
  inv_history : Forall (λ j, is_Some (JSON_parse j)) (history s)
}.

(** Lines 376 and 408: where the mesh of an item is put. *)
Definition meshPosition (m : GridModel) (ix iz : Z) : point :=
  let pos := worldPositionFromGrid m ix iz in
  Point (x pos - (inject_Z (n m) * cell m) / 2 + cell m / 2)
        (z pos - (inject_Z (n m) * cell m) / 2 + cell m / 2).

(** Lines 262 and 273-278: the placement plane is a square of side
    [n * cell] whose centre is at [n * cell / 2 - cell / 2] on both axes. *)
Definition on_plane (m : GridModel) (p : point) : Prop :=
  let fullSize := (inject_Z (n m) * cell m)%Q in
  let centre := (fullSize / 2 - cell m / 2)%Q in
  (centre - fullSize / 2 <= x p)%Q ∧ (x p <= centre + fullSize / 2)%Q ∧
  (centre - fullSize / 2 <= z p)%Q ∧ (z p <= centre + fullSize / 2)%Q.

(** Lines 487-500: the exported document and the name of the download. *)
Definition exportJson_payload (name created : string) (s : state) : json :=
  JObj [("meta", JObj [("name", JStr (if decide (name = "") then "My 3D Stadium"
                                      else name));
                       ("created", JStr created)]);
        ("n", JNum (inject_Z (n (model s))));
        ("cell", JNum (cell (model s)));
        ("items", JArr (map stringify_item (items (model s))))].

Definition exportJson_download (name : string) : string :=
  (if decide (name = "") then "stadium" else name) +:+ ".json".

(** The grid cell an item sits on. *)
Definition cell_of (it : item) : Z * Z := (ix it, iz it).

(** An item whose indices the clamp of [getGridCoordsFromIntersection] can
    give on a grid of dimension [g]. *)
Definition in_grid (g : Z) (it : item) : Prop :=
  0 ≤ ix it ≤ Z.max 0 (g - 1) ∧ 0 ≤ iz it ≤ Z.max 0 (g - 1).

(** A model of the grid at hand with at most one item on a cell, all of
    them inside the grid. *)
Definition model_ok (g : Z) (c : Q) (m : GridModel) : Prop :=
  n m = g ∧ cell m = c ∧
  NoDup (cell_of <$> items m) ∧ Forall (in_grid g) (items m).

(** What the model, the meshes and the snapshots of every state the editor
    gets into satisfy. *)
Record Consistent (s : state) : Prop := {
  cons_model : model_ok (gridSize s) (cellSize s) (model s);
  cons_meshes : sublist (items (model s)) (placementGroup s);
  cons_history :
    Forall (λ j, ∃ m, JSON_parse j = Some m ∧
                      model_ok (gridSize s) (cellSize s) m) (history s)
}.

(** The pointer events. *)
Definition is_pointer (e : event) : bool :=
  match e with
  | PointerDown _ | PointerMove _ | PointerUp => true
  | _ => false
  end.

(** The pointer events whose ray misses the placement plane. *)
Definition misses (e : event) : bool :=
  match e with
  | PointerDown None | PointerMove None | PointerUp => true
  | _ => false
  end.

(** What [Math.floor] of lines 351-352 returns for a finite position and a
    positive cell size: an integer, or an infinity when the quotient
    overflows. *)
Inductive floored := FlInt (k : Z) | FlPosInf | FlNegInf.

(** Lines 354-355: [Math.max(0, Math.min(model.n-1, x))]. *)
Definition clamp_index (n : Z) (x : floored) : Z :=
  match x with
  | FlInt k => Z.max 0 (Z.min (n - 1) k)
  | FlPosInf => Z.max 0 (n - 1)
  | FlNegInf => 0
  end.

(** Lines 353-356 on the two floors of lines 351-352, whatever the double
    arithmetic made them. *)
Definition coords_of_floors (m : GridModel) (fx fz : floored) : Z * Z :=
  (clamp_index (n m) fx, clamp_index (n m) fz).

(** The sum that line 351 or 352 floors, in exact arithmetic, for a
    coordinate [v] of a hit shifted as lines 436-439 shift it. *)
Definition hit_sum (m : GridModel) (v : Q) : Q :=
  ((v + (inject_Z (n m) * cell m) / 2 - cell m / 2) / cell m + (1 # 100000))%Q.

(** [k] is the floor of a number within 1e-5 of [u]: what [Math.floor]
    gives when the doubles put the sum within 1e-5 of the exact one. *)
Definition floor_within (k : Z) (u : Q) : Prop :=
  (inject_Z k <= u + (1 # 100000))%Q ∧ (u - (1 # 100000) < inject_Z k + 1)%Q.

(** Two states that differ at most in [isPointerDown]. *)
Definition same_content (s s' : state) : Prop :=
  model s' = model s ∧ history s' = history s ∧
  placementGroup s' = placementGroup s ∧
  currentTool s' = currentTool s ∧ placed s' = placed s ∧
  gridSize s' = gridSize s ∧ cellSize s' = cellSize s.

(** A paint or erase at a point of the plane with a given tool, as a tool
    button followed by a pointer-down there runs it. *)
Fixpoint edit_all (edits : list (tool * point)) (s : state) : state :=
  match edits with
  | [] => s
  | (t, p) :: edits' => edit_all edits' (handlePointerEvent (Some p) (tool_click t s))
  end.

(** The undo button pressed [k] times. *)
Fixpoint undo_times (k : nat) (s : state) : option state :=
  match k with
  | O => Some s
  | S k' => undoBtn_click s ≫= undo_times k'
  end.

End Scene3D.

(** ** The bounded history *)

Section History.
Context {A : Type}.
Implicit Types (h xs : list A) (x : A) (cap : nat).

Lemma push_capped_drop cap x h :
  (length h ≤ cap)%nat →
  push_capped cap x h = drop (length (h ++ [x]) - cap) (h ++ [x]).
Proof.
  intros Hh. unfold push_capped. cbv zeta.
  rewrite length_app. simpl length.
  destruct (Nat.ltb_spec cap (length h + 1)) as [Hlt | Hge].
  - replace (length h + 1 - cap)%nat with 1%nat by lia.
    destruct h; reflexivity.
  - replace (length h + 1 - cap)%nat with 0%nat by lia. reflexivity.
Qed.

Lemma push_capped_length cap x h :
  (length h ≤ cap)%nat → (length (push_capped cap x h) ≤ cap)%nat.
Proof.
  intros Hh. rewrite push_capped_drop by assumption.
  rewrite length_drop, length_app. simpl. lia.
Qed.

Lemma push_capped_Forall (P : A → Prop) cap x h :
  Forall P h → P x → Forall P (push_capped cap x h).
Proof.
  intros Hh Hx. unfold push_capped. cbv zeta.
  assert (Hall : Forall P (h ++ [x])) by (apply Forall_app; auto).
  destruct (cap <? length (h ++ [x]))%nat; [|assumption].
  destruct (h ++ [x]); [constructor|]. simpl. by inversion Hall.
Qed.

Lemma pushes_length cap xs h :
  (length h ≤ cap)%nat → (length (pushes cap xs h) ≤ cap)%nat.
Proof.
  revert h. induction xs as [|x xs IH]; intros h Hh; simpl; [assumption|].
  apply IH, push_capped_length, Hh.
Qed.

Lemma pushes_drop cap xs h :
  (length h ≤ cap)%nat →
  pushes cap xs h = drop (length (h ++ xs) - cap) (h ++ xs).
Proof.
  revert h. induction xs as [|x xs IH]; intros h Hh; simpl.
  - rewrite app_nil_r. replace (length h - cap)%nat with 0%nat by lia.
    reflexivity.
  - rewrite IH by (apply push_capped_length, Hh).
    rewrite push_capped_drop by assumption.
    set (k := (length (h ++ [x]) - cap)%nat).
    assert (Hk : (k ≤ length (h ++ [x]))%nat) by lia.
    replace (h ++ x :: xs) with ((h ++ [x]) ++ xs)
      by (rewrite <- app_assoc; reflexivity).
    rewrite <- (drop_app_le (h ++ [x]) xs k Hk), drop_drop.
    f_equal. rewrite !length_app, length_drop, !length_app.
    subst k. rewrite length_app in *. simpl in *. lia.
Qed.

Lemma pop_Some h x rest :
  pop h = Some (x, rest) → h = rest ++ [x].
Proof.
  unfold pop. destruct (last h) as [y|] eqn:Hl; [|discriminate].
  intros [= <- <-]. apply last_Some in Hl as [l' ->].
  by rewrite removelast_last.
Qed.

Lemma pop_snoc h x : pop (h ++ [x]) = Some (x, h).
Proof. unfold pop. by rewrite last_snoc, removelast_last. Qed.

Lemma pop_push_capped cap x h :
  (0 < cap)%nat →
  ∃ rest, pop (push_capped cap x h) = Some (x, rest) ∧
          ((length h < cap)%nat → rest = h).
Proof.
  intros Hcap. unfold push_capped. cbv zeta. rewrite length_app. simpl length.
  destruct (Nat.ltb_spec cap (length h + 1)) as [Hlt | Hge].
  - destruct h as [|a h]; [simpl in Hlt; lia|]. simpl tail.
    exists h. split; [apply pop_snoc|]. simpl in *. lia.
  - exists h. split; [apply pop_snoc|]. reflexivity.
Qed.

Lemma pop_nonempty h :
  h ≠ [] → ∃ x rest, pop h = Some (x, rest).
Proof.
  intros Hne. destruct (exists_last Hne) as (rest & x & ->).
  exists x, rest. apply pop_snoc.
Qed.
End History.

(** ** Snapshots read back *)

Lemma as_int_inject (z : Z) : as_int (JNum (inject_Z z)) = Some z.
Proof. reflexivity. Qed.

Lemma mapM_map_inverse {A B} (f : B → option A) (g : A → B) (l : list A) :
  (∀ a, f (g a) = Some a) → mapM f (map g l) = Some l.
Proof.
  intros Hfg. apply mapM_Some. induction l as [|a l IH]; simpl.
  - constructor.
  - constructor; [apply Hfg | apply IH].
Qed.

Module FlatFacts.
Import Flat.

Lemma parse_stringify_cell c : parse_cell (stringify_cell c) = Some c.
Proof. destruct c as [t [p|] | s]; reflexivity. Qed.

Lemma parse_stringify_cells cs :
  mapM parse_cell (map stringify_cell cs) = Some cs.
Proof. apply mapM_map_inverse, parse_stringify_cell. Qed.

Lemma flat_parse_stringify m : JSON_parse (JSON_stringify m) = Some m.
Proof.
  destruct m as [k cs]. unfold JSON_stringify, JSON_parse. simpl.
  rewrite parse_stringify_cells. reflexivity.
Qed.

End FlatFacts.

Module Scene3DFacts.
Import Scene3D.

Lemma parse_stringify_item it : parse_item (stringify_item it) = Some it.
Proof. destruct it; reflexivity. Qed.

Lemma parse_stringify_items its :
  mapM parse_item (map stringify_item its) = Some its.
Proof. apply mapM_map_inverse, parse_stringify_item. Qed.

Lemma scene_parse_stringify m : JSON_parse (JSON_stringify m) = Some m.
Proof.
  destruct m as [k c its]. unfold JSON_stringify, JSON_parse. simpl.
  rewrite parse_stringify_items. reflexivity.
Qed.

End Scene3DFacts.

(** ** The flat editor keeps its grid square *)

Module FlatInv.
Import Flat FlatFacts.

Lemma createEmptyModel_length g :
  length (cells (createEmptyModel g)) = Z.to_nat (g * g).
Proof. simpl. apply length_replicate. Qed.

Lemma snapshot_of_model s : Inv s → snapshot_ok (gridSize s) (JSON_stringify (model s)).
Proof.
  intros [Hn Hc _ _]. exists (model s). split; [apply flat_parse_stringify|]. auto.
Qed.

Lemma flat_init_Inv a b : Inv (init a b).
Proof.
  split; simpl; auto using length_replicate. lia.
Qed.

Lemma flat_saveHistory_Inv s : Inv s → Inv (saveHistory s).
Proof.
  intros HI. pose proof (snapshot_of_model s HI) as Hsnap.
  destruct HI as [Hn Hc Hl Hh]. split; simpl; auto.
  - by apply push_capped_length.
  - by apply push_capped_Forall.
Qed.

Lemma handleCellAction_Inv idx s s' :
  handleCellAction idx s = Some s' → Inv s → Inv s'.
Proof.
  unfold handleCellAction. cbv zeta. intros Hstep HI.
  apply flat_saveHistory_Inv in HI. revert Hstep HI.
  generalize (saveHistory s). clear s. intros s Hstep [Hn Hc Hl Hh].
  destruct (cells (model s) !! idx) as [old|]; [|discriminate].
  simpl in Hstep. injection Hstep as <-.
  split; simpl; auto. by rewrite length_insert.
Qed.

Lemma handleCellAction_Some idx s :
  Inv s → rendered idx s = true → is_Some (handleCellAction idx s).
Proof.
  intros [Hn Hc _ _] Hr. unfold handleCellAction. cbv zeta.
  unfold rendered in Hr. apply bool_decide_eq_true in Hr.
  destruct (lookup_lt_is_Some_2 (cells (model (saveHistory s))) idx) as [old Hold].
  { simpl. lia. }
  rewrite Hold. simpl. eauto.
Qed.

Lemma set_pointer_Inv d t b s : Inv s → Inv (set_pointer d t b s).
Proof. intros [? ? ? ?]. by split. Qed.

Lemma resizeBtn_click_Inv a b s : Inv (resizeBtn_click a b s).
Proof.
  split; simpl; auto using length_replicate. lia.
Qed.

Lemma flat_undoBtn_click_Inv s s' : undoBtn_click s = Some s' → Inv s → Inv s'.
Proof.
  unfold undoBtn_click. intros Hstep HI.
  destruct (decide (length (history s) = 0%nat)); [by injection Hstep as <-|].
  destruct (pop (history s)) as [[prev rest]|] eqn:Hpop; [|discriminate].
  simpl in Hstep. apply pop_Some in Hpop.
  destruct HI as [Hn Hc Hl Hh]. rewrite Hpop in Hl, Hh.
  apply Forall_app in Hh as [Hrest Hprev].
  apply Forall_singleton in Hprev as (m & Hm & Hmn & Hmc).
  rewrite Hm in Hstep. simpl in Hstep. injection Hstep as <-.
  split; simpl; auto. rewrite length_app in Hl. lia.
Qed.

Lemma flat_undoBtn_click_pop s prev rest m :
  pop (history s) = Some (prev, rest) →
  JSON_parse prev = Some m →
  undoBtn_click s = Some (set_model m (set_history rest s)).
Proof.
  intros Hpop Hm. unfold undoBtn_click. rewrite Hpop.
  case_decide as Hempty.
  - apply pop_Some in Hpop. rewrite Hpop, length_app in Hempty.
    simpl in Hempty. lia.
  - simpl. rewrite Hm. reflexivity.
Qed.

Lemma clearBtn_click_Inv s : Inv s → Inv (clearBtn_click s).
Proof.
  intros HI. apply flat_saveHistory_Inv in HI. destruct HI as [Hn Hc Hl Hh].
  unfold clearBtn_click. cbv zeta. split; simpl; auto using length_replicate.
Qed.

Lemma flat_step_Inv e s s' : step e s = Some s' → Inv s → Inv s'.
Proof.
  destruct e as [idx|idx| |t|key ctrl|a b| |]; simpl; intros Hstep HI.
  - destruct (rendered idx s); [|discriminate].
    unfold onPointerDown in Hstep. cbv zeta in Hstep.
    destruct (handleCellAction idx _) as [s2|] eqn:H2; [|discriminate].
    simpl in Hstep. injection Hstep as <-.
    apply set_pointer_Inv. eapply handleCellAction_Inv; [exact H2|].
    by apply set_pointer_Inv.
  - destruct (rendered idx s); [|discriminate].
    unfold onPointerEnter in Hstep.
    destruct (_ && _); [by eapply handleCellAction_Inv|by injection Hstep as <-].
  - injection Hstep as <-. destruct (pointerUpBound s); [|assumption].
    by apply set_pointer_Inv.
  - injection Hstep as <-. destruct HI. by split.
  - unfold onKeyDown in Hstep.
    destruct (_ && _); [by eapply flat_undoBtn_click_Inv|].
    repeat (destruct (bool_decide _);
            [injection Hstep as <-; destruct HI; by split|]).
    by injection Hstep as <-.
  - injection Hstep as <-. apply resizeBtn_click_Inv.
  - by eapply flat_undoBtn_click_Inv.
  - injection Hstep as <-. by apply clearBtn_click_Inv.
Qed.

Lemma flat_run_Inv evs s s' : run evs s = Some s' → Inv s → Inv s'.
Proof.
  revert s. induction evs as [|e evs IH]; simpl; intros s Hrun HI.
  - by injection Hrun as <-.
  - destruct (step e s) as [s1|] eqn:H1; [|discriminate].
    simpl in Hrun. eapply IH; [exact Hrun|]. by eapply flat_step_Inv.
Qed.

Lemma flat_reachable_Inv s : reachable s → Inv s.
Proof.
  intros (a & b & evs & Hrun). eapply flat_run_Inv; [exact Hrun|]. apply flat_init_Inv.
Qed.

Lemma reachable_step e s s' : reachable s → step e s = Some s' → reachable s'.
Proof.
  intros (a & b & evs & Hrun) Hstep. exists a, b, (evs ++ [e]).
  revert Hrun. generalize (init a b). induction evs as [|e0 evs IH]; simpl.
  - intros s0 [= ->]. rewrite Hstep. reflexivity.
  - intros s0 Hrun. destruct (step e0 s0) as [s1|]; [|discriminate].
    simpl in *. by apply IH.
Qed.

End FlatInv.

(** ** The three.js editor keeps its history readable *)

Module Scene3DInv.
Import Scene3D Scene3DFacts.

Lemma scene_init_Inv a b : Inv (init a b).
Proof. split; simpl; [lia | constructor]. Qed.

Lemma scene_saveHistory_Inv s : Inv s → Inv (saveHistory s).
Proof.
  intros [Hl Hh]. split; simpl.
  - by apply push_capped_length.
  - apply push_capped_Forall; [assumption|].
    rewrite scene_parse_stringify. eauto.
Qed.

Lemma addItem_Inv t i k s : Inv s → Inv (addItem t i k s).
Proof. intros HI. apply scene_saveHistory_Inv in HI. destruct HI. by split. Qed.

Lemma removeItemAt_Inv i k s : Inv s → Inv (removeItemAt i k s).
Proof. intros HI. apply scene_saveHistory_Inv in HI. destruct HI. by split. Qed.

Lemma Inv_same_history s s' : history s' = history s → Inv s → Inv s'.
Proof. intros Heq [Hl Hh]. split; by rewrite Heq. Qed.

Lemma handlePointerEvent_Inv hit s : Inv s → Inv (handlePointerEvent hit s).
Proof.
  intros HI. destruct hit as [p|]; simpl; [|assumption].
  set (c := hit_cell _ _).
  repeat case_decide; try assumption.
  - apply (Inv_same_history (removeItemAt c.1 c.2 s)); [reflexivity|].
    apply removeItemAt_Inv, HI.
  - apply (Inv_same_history (addItem (tool_name (currentTool s)) c.1 c.2 s));
      [reflexivity|].
    apply addItem_Inv, HI.
Qed.

Lemma scene_undoBtn_click_Inv s s' : undoBtn_click s = Some s' → Inv s → Inv s'.
Proof.
  unfold undoBtn_click. intros Hstep [Hl Hh].
  destruct (decide (length (history s) = 0%nat)); [by injection Hstep as <-|].
  destruct (pop (history s)) as [[prev rest]|] eqn:Hpop; [|discriminate].
  simpl in Hstep. apply pop_Some in Hpop. rewrite Hpop in Hl, Hh.
  apply Forall_app in Hh as [Hrest _].
  destruct (JSON_parse prev) as [m|]; [|discriminate].
  simpl in Hstep. injection Hstep as <-.
  split; simpl; auto. rewrite length_app in Hl. lia.
Qed.

Lemma scene_undoBtn_click_pop s prev rest m :
  pop (history s) = Some (prev, rest) →
  JSON_parse prev = Some m →
  undoBtn_click s =
    Some (rebuildPlacementGroup (set_model m (set_history rest s))).
Proof.
  intros Hpop Hm. unfold undoBtn_click. rewrite Hpop.
  case_decide as Hempty.
  - apply pop_Some in Hpop. rewrite Hpop, length_app in Hempty.
    simpl in Hempty. lia.
  - simpl. rewrite Hm. reflexivity.
Qed.

Lemma scene_step_Inv e s s' : step e s = Some s' → Inv s → Inv s'.
Proof.
  destruct e as [hit|hit| |t|a b| |]; simpl; intros Hstep HI;
    try (injection Hstep as <-).
  - apply handlePointerEvent_Inv. destruct HI. by split.
  - unfold onPointerMove. destruct (_ && _); [|assumption].
    by apply handlePointerEvent_Inv.
  - destruct HI. by split.
  - destruct HI. by split.
  - split; simpl; [lia | constructor].
  - by eapply scene_undoBtn_click_Inv.
  - apply scene_saveHistory_Inv in HI. destruct HI. by split.
Qed.

Lemma scene_run_Inv evs s s' : run evs s = Some s' → Inv s → Inv s'.
Proof.
  revert s. induction evs as [|e evs IH]; simpl; intros s Hrun HI.
  - by injection Hrun as <-.
  - destruct (step e s) as [s1|] eqn:H1; [|discriminate].
    simpl in Hrun. eapply IH; [exact Hrun|]. by eapply scene_step_Inv.
Qed.

Lemma scene_reachable_Inv s : reachable s → Inv s.
Proof.
  intros (a & b & evs & Hrun). eapply scene_run_Inv; [exact Hrun|]. apply scene_init_Inv.
Qed.

End Scene3DInv.

(** ** Strokes and the tool they run with *)

Module FlatStroke.
Import Flat.






End FlatStroke.




(** ** Capacity of the history *)

(** C2.  In every state either editor gets into, the history holds at most
    its capacity of snapshots, 100 in the flat editor and 200 in the three.js
    one, and [saveHistory] is a capped push.  Any run of capped pushes stays
    within the capacity; after capacity+1 pushes on an empty history the
    oldest snapshot has gone from the head, the stack is exactly the later
    ones, and one pop returns the newest of them. *)
Theorem history_capacity :
  (∀ s, Flat.reachable s → (length (Flat.history s) ≤ 100)%nat) ∧
  (∀ s, Scene3D.reachable s → (length (Scene3D.history s) ≤ 200)%nat) ∧
  (∀ s, Flat.history (Flat.saveHistory s) =
          push_capped 100 (Flat.JSON_stringify (Flat.model s)) (Flat.history s)) ∧
  (∀ s, Scene3D.history (Scene3D.saveHistory s) =
          push_capped 200 (Scene3D.JSON_stringify (Scene3D.model s))
            (Scene3D.history s)) ∧
  (∀ (cap : nat) (xs h : list json),
     (length h ≤ cap)%nat → (length (pushes cap xs h) ≤ cap)%nat) ∧
  (∀ (cap : nat) (oldest : json) (later : list json),
     (0 < cap)%nat → length later = cap →
     pushes cap (oldest :: later) [] = later ∧
     ∃ newest rest,
       last (oldest :: later) = Some newest ∧
       pop (pushes cap (oldest :: later) []) = Some (newest, rest) ∧
       later = rest ++ [newest]).
Proof.
  split; [|split; [|split; [|split; [|split]]]].
  - intros s Hs. apply FlatInv.flat_reachable_Inv in Hs. apply Hs.
  - intros s Hs. apply Scene3DInv.scene_reachable_Inv in Hs. apply Hs.
  - reflexivity.
  - reflexivity.
  - intros cap xs h. apply pushes_length.
  - intros cap oldest later Hcap Hlen.
    assert (Hpush : pushes cap (oldest :: later) [] = later).
    { rewrite pushes_drop by (simpl; lia). simpl app. simpl length.
      rewrite Hlen. replace (S cap - cap)%nat with 1%nat by lia. reflexivity. }
    split; [exact Hpush|]. rewrite Hpush.
    destruct (pop_nonempty later) as (newest & rest & Hpop).
    { intros ->. simpl in Hlen. lia. }
    exists newest, rest. pose proof (pop_Some _ _ _ Hpop) as Hlater.
    split; [|split; assumption].
    rewrite Hlater. change (oldest :: rest ++ [newest])
      with ((oldest :: rest) ++ [newest]). apply last_snoc.
Qed.

Lemma history_capacity_witness :
  (length (Flat.history (Flat.init None None)) ≤ 100)%nat ∧
  (length (Scene3D.history (Scene3D.init None None)) ≤ 200)%nat ∧
  (length (pushes 100 (replicate 150 JNull) []) ≤ 100)%nat ∧
  pushes 100 (JBool true :: replicate 99 JNull ++ [JBool false]) [] =
    replicate 99 JNull ++ [JBool false].
Proof.
  split; [|split; [|split]].
  - apply (proj1 history_capacity).
    exists None, None, []. reflexivity.
  - apply (proj1 (proj2 history_capacity)).
    exists None, None, []. reflexivity.
  - apply (proj1 (proj2 (proj2 (proj2 (proj2 history_capacity))))).
    simpl. lia.
  - apply (proj2 (proj2 (proj2 (proj2 (proj2 history_capacity))))
             100%nat (JBool true) (replicate 99 JNull ++ [JBool false])).
    + lia.
    + reflexivity.
Defined.

(** ** From a point of the plane to a grid cell *)

(** C3, as amended.  On a grid of dimension at least 1 the two indices that
    [getGridCoordsFromIntersection] returns lie in [0, n-1], for every
    point, however far outside the grid, and whatever the doubles make of
    the quotient and the epsilon: the clamp of lines 354-355 sends any
    floor, an integer or an infinity, into that range, and the function as
    read in exact arithmetic is one such case.  The result is a function of
    the point and of [model.n] and [model.cell] alone; the items of the
    model have no part in it, and nothing is written. *)
Theorem grid_coords_in_range :
  (∀ m fx fz,
     1 ≤ Scene3D.n m →
     let c := Scene3D.coords_of_floors m fx fz in
     0 ≤ c.1 ≤ Scene3D.n m - 1 ∧ 0 ≤ c.2 ≤ Scene3D.n m - 1) ∧
  (∀ m p,
     1 ≤ Scene3D.n m →
     let c := Scene3D.getGridCoordsFromIntersection m p in
     0 ≤ c.1 ≤ Scene3D.n m - 1 ∧ 0 ≤ c.2 ≤ Scene3D.n m - 1) ∧
  (∀ m p, ∃ kx kz,
     Scene3D.getGridCoordsFromIntersection m p =
       Scene3D.coords_of_floors m (Scene3D.FlInt kx) (Scene3D.FlInt kz)) ∧
  (∀ m m' p fx fz,
     Scene3D.n m = Scene3D.n m' → Scene3D.cell m = Scene3D.cell m' →
     Scene3D.getGridCoordsFromIntersection m p =
       Scene3D.getGridCoordsFromIntersection m' p ∧
     Scene3D.coords_of_floors m fx fz = Scene3D.coords_of_floors m' fx fz).
Proof.
  split; [|split; [|split]].
  - intros m fx fz Hn c. subst c. unfold Scene3D.coords_of_floors.
    destruct fx, fz; simpl; lia.
  - intros m p Hn c. subst c.
    unfold Scene3D.getGridCoordsFromIntersection. simpl. lia.
  - intros m p. eexists _, _. reflexivity.
  - intros m m' p fx fz Hn Hc.
    unfold Scene3D.getGridCoordsFromIntersection, Scene3D.coords_of_floors.
    by rewrite Hn, Hc.
Qed.

Lemma grid_coords_in_range_witness :
  (let c := Scene3D.coords_of_floors (Scene3D.Model 24 2 [])
              Scene3D.FlPosInf (Scene3D.FlInt (-7)) in
   c = (23, 0) ∧ 0 ≤ c.1 ≤ 23 ∧ 0 ≤ c.2 ≤ 23) ∧
  (let c := Scene3D.getGridCoordsFromIntersection
              (Scene3D.Model 24 2 []) (Scene3D.Point (-7 # 2) 1000000) in
   c = (0, 23) ∧ 0 ≤ c.1 ≤ 23 ∧ 0 ≤ c.2 ≤ 23) ∧
  Scene3D.getGridCoordsFromIntersection
    (Scene3D.Model 24 2 []) (Scene3D.Point 5 7) =
  Scene3D.getGridCoordsFromIntersection
    (Scene3D.Model 24 2 [Scene3D.Item "pitch" 2 3]) (Scene3D.Point 5 7).
Proof.
  split; [|split].
  - split; [reflexivity|].
    apply (proj1 grid_coords_in_range (Scene3D.Model 24 2 [])
             Scene3D.FlPosInf (Scene3D.FlInt (-7))).
    simpl. lia.
  - split; [reflexivity|].
    apply (proj1 (proj2 grid_coords_in_range) (Scene3D.Model 24 2 [])
             (Scene3D.Point (-7 # 2) 1000000)).
    simpl. lia.
  - apply (proj2 (proj2 (proj2 grid_coords_in_range))
             (Scene3D.Model 24 2 [])
             (Scene3D.Model 24 2 [Scene3D.Item "pitch" 2 3])
             (Scene3D.Point 5 7) Scene3D.FlNegInf Scene3D.FlNegInf);
      reflexivity.
Defined.

(** C3 as stated, for every dimension, fails below 1.  With -3 in the grid
    size field when the page loads the model has dimension -3 (the field is
    clamped on resize only), and a hit at the origin is read as (0, 0),
    which is not within [0, n-1]; so is whatever the floors are. *)
Lemma grid_coords_small_dimension_counterexample :
  let m := Scene3D.model (Scene3D.init (Some (-3)) None) in
  Scene3D.n m = -3 ∧
  Scene3D.getGridCoordsFromIntersection m (Scene3D.Point 0 0) = (0, 0) ∧
  (∀ fx fz, Scene3D.coords_of_floors m fx fz = (0, 0)) ∧
  ¬ (∀ m p,
       let c := Scene3D.getGridCoordsFromIntersection m p in
       0 ≤ c.1 ≤ Scene3D.n m - 1 ∧ 0 ≤ c.2 ≤ Scene3D.n m - 1).
Proof.
  split; [reflexivity|]. split; [reflexivity|]. split.
  - intros fx fz. destruct fx as [kx| |], fz as [kz| |];
      unfold Scene3D.coords_of_floors; simpl; f_equal; lia.
  - intros H.
    specialize (H (Scene3D.model (Scene3D.init (Some (-3)) None))
                  (Scene3D.Point 0 0)).
    vm_compute in H. destruct H as [[_ H] _]. by apply H.
Qed.

(** ** Resizing *)

(** C4, as amended.  The resize button never rejects its input.  The grid
    size field, read as an integer [z] ([None] when it does not parse), is
    replaced by 24 when it is 0 or does not parse, and is then clamped into
    [8, 64] by the flat editor and into [8, 128] by the three.js editor; the
    new model has that dimension. *)
Theorem resize_clamps_dimension :
  (∀ z px s,
     Flat.gridSize (Flat.resizeBtn_click (Some z) px s) =
       Z.max 8 (Z.min 64 (if decide (z = 0) then 24 else z))) ∧
  (∀ px s,
     Flat.gridSize (Flat.resizeBtn_click None px s) = 24) ∧
  (∀ v px s,
     let s' := Flat.resizeBtn_click v px s in
     Flat.n (Flat.model s') = Flat.gridSize s' ∧ 8 ≤ Flat.gridSize s' ≤ 64) ∧
  (∀ z c s,
     Scene3D.gridSize (Scene3D.resizeBtn_click (Some z) c s) =
       Z.max 8 (Z.min 128 (if decide (z = 0) then 24 else z))) ∧
  (∀ c s,
     Scene3D.gridSize (Scene3D.resizeBtn_click None c s) = 24) ∧
  (∀ v c s,
     let s' := Scene3D.resizeBtn_click v c s in
     Scene3D.n (Scene3D.model s') = Scene3D.gridSize s' ∧
     8 ≤ Scene3D.gridSize s' ≤ 128).
Proof.
  split; [|split; [|split; [|split; [|split]]]].
  - reflexivity.
  - reflexivity.
  - intros v px s s'. subst s'. simpl. lia.
  - reflexivity.
  - reflexivity.
  - intros v c s s'. subst s'. simpl. lia.
Qed.

(** C4 as stated fails in the flat editor, whose upper bound is 64: with 100
    in the grid size field the resize gives a grid of dimension 64, while
    100 clamped into [8, 128] is 100. *)
Lemma resize_flat_counterexample :
  Flat.n (Flat.model (Flat.resizeBtn_click (Some 100) None
                        (Flat.init None None))) = 64 ∧
  Z.max 8 (Z.min 128 100) = 100 ∧
  ¬ (∀ z px s,
       Flat.n (Flat.model (Flat.resizeBtn_click (Some z) px s)) =
         Z.max 8 (Z.min 128 z)).
Proof.
  split; [reflexivity|]. split; [reflexivity|].
  intros H. specialize (H 100 None (Flat.init None None)).
  vm_compute in H. discriminate H.
Qed.

(** ** The select tool of the flat editor *)

(** C5, evaluated on the code.  Selecting a cell that holds a tile of some
    kind gives a selected tile that remembers the kind, but selecting it
    again puts the remembered string itself into the array, not a tile of
    that kind; a third selection then finds no [type] to remember.  The run
    paints pitch on cell 0 of an 8 by 8 grid and selects it twice: cell 0
    ends as the bare string "pitch" while cell 1 is still an empty tile. *)
Theorem select_twice_leaves_bare_string :
  (∀ T : tool,
     Flat.select_toggle (Flat.Tile (tool_name T) None) =
       Flat.Tile "selected" (Some (tool_name T)) ∧
     Flat.select_toggle (Flat.Tile "selected" (Some (tool_name T))) =
       Flat.Bare (tool_name T) ∧
     Flat.select_toggle (Flat.Bare (tool_name T)) =
       Flat.Tile "selected" None) ∧
  (∃ s,
     Flat.run [Flat.PointerDown 0; Flat.PointerUp; Flat.ToolClick select;
               Flat.PointerDown 0; Flat.PointerUp;
               Flat.PointerDown 0; Flat.PointerUp]
              (Flat.init (Some 8) None) = Some s ∧
     Flat.cells (Flat.model s) !! 0%nat = Some (Flat.Bare "pitch") ∧
     Flat.cells (Flat.model s) !! 0%nat ≠ Some (Flat.Tile "pitch" None) ∧
     Flat.cells (Flat.model s) !! 1%nat = Some (Flat.Tile "empty" None)).
Proof.
  split.
  - intros T. destruct T; repeat split; reflexivity.
  - eexists. split; [vm_compute; reflexivity|].
    repeat split; [discriminate].
Qed.

(** ** Snapshots read back as the model they were made from *)

(** C6.  In both editors [JSON.parse(JSON.stringify(model))] is the model
    again: the same dimension, the same cell size, and the same cells or
    items one by one, with the [prevType] of a selected tile.  So whatever
    becomes of the model after [saveHistory] took its snapshot, the next
    undo reads the snapshot back as the very model it was taken from (and
    the three.js editor rebuilds the meshes from it). *)
Theorem json_roundtrip :
  (∀ m : Flat.GridModel, Flat.JSON_parse (Flat.JSON_stringify m) = Some m) ∧
  (∀ m : Scene3D.GridModel,
     Scene3D.JSON_parse (Scene3D.JSON_stringify m) = Some m) ∧
  (∀ s m',
     ∃ s', Flat.undoBtn_click (Flat.set_model m' (Flat.saveHistory s)) = Some s' ∧
           Flat.model s' = Flat.model s) ∧
  (∀ s m',
     ∃ s', Scene3D.undoBtn_click
             (Scene3D.set_model m' (Scene3D.saveHistory s)) = Some s' ∧
           Scene3D.model s' = Scene3D.model s ∧
           Scene3D.placementGroup s' = Scene3D.items (Scene3D.model s)).
Proof.
  split; [apply FlatFacts.flat_parse_stringify|].
  split; [apply Scene3DFacts.scene_parse_stringify|]. split; intros s m'.
  - destruct (pop_push_capped 100 (Flat.JSON_stringify (Flat.model s))
                (Flat.history s)) as (rest & Hpop & _); [lia|].
    eexists. split;
      [exact (FlatInv.flat_undoBtn_click_pop
                (Flat.set_model m' (Flat.saveHistory s))
                _ _ _ Hpop (FlatFacts.flat_parse_stringify (Flat.model s)))
      | reflexivity].
  - destruct (pop_push_capped 200 (Scene3D.JSON_stringify (Scene3D.model s))
                (Scene3D.history s)) as (rest & Hpop & _); [lia|].
    eexists. split;
      [exact (Scene3DInv.scene_undoBtn_click_pop
                (Scene3D.set_model m' (Scene3D.saveHistory s))
                _ _ _ Hpop
                (Scene3DFacts.scene_parse_stringify (Scene3D.model s)))
      | split; reflexivity].
Qed.

(** ** Painting the same cell twice *)

Module PaintFacts.

Lemma flat_paint_cell (t : tool) (old : Flat.cell) :
  is_paint t = true →
  (if decide (t = erase) then Flat.Tile "empty" None
   else if decide (t = select) then Flat.select_toggle old
   else Flat.Tile (tool_name t) None) = Flat.Tile (tool_name t) None.
Proof. destruct t; intros Hp; try discriminate Hp; reflexivity. Qed.

Lemma flat_paint idx s :
  is_paint (Flat.currentTool s) = true →
  (idx < length (Flat.cells (Flat.model s)))%nat →
  Flat.handleCellAction idx s =
    Some (Flat.log_placed (Flat.currentTool s) idx
            (Flat.set_model
               (Flat.Model (Flat.n (Flat.model s))
                  (<[idx := Flat.Tile (tool_name (Flat.currentTool s)) None]>
                     (Flat.cells (Flat.model s))))
               (Flat.saveHistory s))).
Proof.
  intros Hp Hidx. unfold Flat.handleCellAction. cbv zeta.
  destruct (lookup_lt_is_Some_2 _ _ Hidx) as [old Hold].
  change (Flat.cells (Flat.model (Flat.saveHistory s)))
    with (Flat.cells (Flat.model s)).
  rewrite Hold. simpl. by rewrite flat_paint_cell.
Qed.

Lemma addItem_items t i k s :
  Scene3D.items (Scene3D.model (Scene3D.addItem t i k s)) =
    filter (Scene3D.elsewhere i k) (Scene3D.items (Scene3D.model s)) ++
    [Scene3D.Item t i k].
Proof. reflexivity. Qed.

Lemma addItem_twice t i k s :
  Scene3D.model (Scene3D.addItem t i k (Scene3D.addItem t i k s)) =
  Scene3D.model (Scene3D.addItem t i k s).
Proof.
  unfold Scene3D.addItem at 1. cbv zeta. simpl.
  f_equal. rewrite filter_app, list_filter_filter_l by auto.
  rewrite filter_cons_False, filter_nil, app_nil_r; [reflexivity|].
  unfold Scene3D.elsewhere. simpl. tauto.
Qed.

Lemma addItem_occupant t i k s :
  filter (λ it, Scene3D.ix it = i ∧ Scene3D.iz it = k)
         (Scene3D.items (Scene3D.model (Scene3D.addItem t i k s))) =
  [Scene3D.Item t i k].
Proof.
  rewrite addItem_items, filter_app, list_filter_filter.
  rewrite filter_cons_True, filter_nil by (simpl; auto).
  replace (filter _ (Scene3D.items (Scene3D.model s))) with (@nil Scene3D.item);
    [reflexivity|].
  symmetry. induction (Scene3D.items (Scene3D.model s)) as [|it l IH];
    [reflexivity|].
  rewrite filter_cons_False; [exact IH|].
  unfold Scene3D.elsewhere. tauto.
Qed.

End PaintFacts.

(** C7.  With a paint tool selected, two cell actions in a row on one cell of
    the flat grid both go through, the cell holds a tile of the tool after
    the first, and the model after the second is the model after the first.
    In the three.js editor [addItem] called twice with one type and one cell
    leaves the model of the first call, in which the only item at that cell
    is the new one; so do two pointer events at one point with a paint tool
    selected.  (Each call still pushes a snapshot.) *)
Theorem paint_twice_same_model :
  (∀ s idx,
     is_paint (Flat.currentTool s) = true →
     (idx < length (Flat.cells (Flat.model s)))%nat →
     ∃ s1 s2,
       Flat.handleCellAction idx s = Some s1 ∧
       Flat.handleCellAction idx s1 = Some s2 ∧
       Flat.cells (Flat.model s1) !! idx =
         Some (Flat.Tile (tool_name (Flat.currentTool s)) None) ∧
       Flat.model s2 = Flat.model s1) ∧
  (∀ (T : tool) ix iz s,
     is_paint T = true →
     let s1 := Scene3D.addItem (tool_name T) ix iz s in
     let s2 := Scene3D.addItem (tool_name T) ix iz s1 in
     filter (λ it, Scene3D.ix it = ix ∧ Scene3D.iz it = iz)
            (Scene3D.items (Scene3D.model s1)) =
       [Scene3D.Item (tool_name T) ix iz] ∧
     Scene3D.model s2 = Scene3D.model s1) ∧
  (∀ s p,
     is_paint (Scene3D.currentTool s) = true →
     let s1 := Scene3D.handlePointerEvent (Some p) s in
     let s2 := Scene3D.handlePointerEvent (Some p) s1 in
     Scene3D.model s2 = Scene3D.model s1).
Proof.
  split; [|split].
  - intros s idx Hp Hidx.
    eexists _, _. split; [apply PaintFacts.flat_paint; assumption|].
    split; [|split].
    + rewrite PaintFacts.flat_paint; [reflexivity|exact Hp|].
      simpl. by rewrite length_insert.
    + simpl. by apply list_lookup_insert_eq.
    + simpl. by rewrite list_insert_insert_eq.
  - intros T ix iz s _ s1 s2. subst s1 s2. split.
    + apply PaintFacts.addItem_occupant.
    + apply PaintFacts.addItem_twice.
  - intros s p Hp s1 s2. subst s1 s2.
    assert (He : Scene3D.currentTool s ≠ erase)
      by (intros E; rewrite E in Hp; discriminate).
    assert (Hs : Scene3D.currentTool s ≠ select)
      by (intros E; rewrite E in Hp; discriminate).
    unfold Scene3D.handlePointerEvent at 2. cbv zeta.
    rewrite !decide_False by assumption.
    set (s1 := Scene3D.log_placed _ _ _).
    unfold Scene3D.handlePointerEvent. cbv zeta.
    change (Scene3D.currentTool s1) with (Scene3D.currentTool s).
    rewrite !decide_False by assumption.
    change (Scene3D.hit_cell (Scene3D.model s1) p)
      with (Scene3D.hit_cell (Scene3D.model s) p).
    subst s1. set (c := Scene3D.hit_cell (Scene3D.model s) p).
    change (Scene3D.model
              (Scene3D.addItem (tool_name (Scene3D.currentTool s)) c.1 c.2
                 (Scene3D.log_placed (Scene3D.currentTool s) c
                    (Scene3D.addItem (tool_name (Scene3D.currentTool s))
                       c.1 c.2 s))) =
            Scene3D.model
              (Scene3D.addItem (tool_name (Scene3D.currentTool s)) c.1 c.2 s)).
    exact (PaintFacts.addItem_twice _ c.1 c.2 s).
Qed.

Lemma paint_twice_same_model_witness :
  (let s := Flat.init (Some 8) None in
   ∃ s1 s2,
     Flat.handleCellAction 5 s = Some s1 ∧
     Flat.handleCellAction 5 s1 = Some s2 ∧
     Flat.cells (Flat.model s1) !! 5%nat = Some (Flat.Tile "pitch" None) ∧
     Flat.model s2 = Flat.model s1) ∧
  (let s1 := Scene3D.addItem "flag" 3 4 (Scene3D.init None None) in
   let s2 := Scene3D.addItem "flag" 3 4 s1 in
   filter (λ it, Scene3D.ix it = 3 ∧ Scene3D.iz it = 4)
          (Scene3D.items (Scene3D.model s1)) = [Scene3D.Item "flag" 3 4] ∧
   Scene3D.model s2 = Scene3D.model s1) ∧
  (let s := Scene3D.init None None in
   let s1 := Scene3D.handlePointerEvent (Some (Scene3D.Point 0 0)) s in
   let s2 := Scene3D.handlePointerEvent (Some (Scene3D.Point 0 0)) s1 in
   Scene3D.model s2 = Scene3D.model s1).
Proof.
  split; [|split].
  - apply (proj1 paint_twice_same_model (Flat.init (Some 8) None) 5%nat).
    + reflexivity.
    + simpl. lia.
  - apply (proj1 (proj2 paint_twice_same_model) flag 3 4
             (Scene3D.init None None)).
    reflexivity.
  - apply (proj2 (proj2 paint_twice_same_model) (Scene3D.init None None)
             (Scene3D.Point 0 0)).
    reflexivity.
Defined.

(** ** Undo, clear and the shape of the grid *)

(** C8.  With an empty history the undo button returns at once, without an
    error, and the whole state, model and history included, is as before;
    so does Ctrl+Z in the flat editor. *)
Theorem undo_on_empty_history :
  (∀ s, Flat.history s = [] →
        Flat.undoBtn_click s = Some s ∧
        Flat.step Flat.UndoClick s = Some s ∧
        Flat.step (Flat.KeyDown "z" true) s = Some s) ∧
  (∀ s, Scene3D.history s = [] →
        Scene3D.undoBtn_click s = Some s ∧
        Scene3D.step Scene3D.UndoClick s = Some s).
Proof.
  split; intros s Hh.
  - assert (Hu : Flat.undoBtn_click s = Some s)
      by (unfold Flat.undoBtn_click; rewrite Hh; reflexivity).
    repeat split; exact Hu.
  - assert (Hu : Scene3D.undoBtn_click s = Some s)
      by (unfold Scene3D.undoBtn_click; rewrite Hh; reflexivity).
    split; exact Hu.
Qed.

Lemma undo_on_empty_history_witness :
  (let s := Flat.init None None in
   Flat.undoBtn_click s = Some s ∧
   Flat.step Flat.UndoClick s = Some s ∧
   Flat.step (Flat.KeyDown "z" true) s = Some s) ∧
  (let s := Scene3D.resizeBtn_click (Some 8) None
              (Scene3D.addItem "pitch" 0 0 (Scene3D.init None None)) in
   Scene3D.undoBtn_click s = Some s ∧
   Scene3D.step Scene3D.UndoClick s = Some s).
Proof.
  split.
  - apply (proj1 undo_on_empty_history (Flat.init None None)). reflexivity.
  - apply (proj2 undo_on_empty_history
             (Scene3D.resizeBtn_click (Some 8) None
                (Scene3D.addItem "pitch" 0 0 (Scene3D.init None None)))).
    reflexivity.
Defined.

(** C9, evaluated on the code.  In every state the flat editor gets into,
    [model.n] is the grid size, [model.cells] has [n*n] entries, one at each
    index below [n*n], and every snapshot of the history reads back as a
    grid of that same dimension with [n*n] entries, since a resize empties
    the history.  Every event (paint, erase, select, clear, undo, resize,
    tool change) leads to such a state again, every pointer event on a cell
    that is drawn goes through, and so does every undo.  But the entry at an
    index need not be a tile: after pitch is painted on cell 0 of an 8 by 8
    grid and the cell is selected twice, the array still has its 64 entries
    and entry 0 is the bare string "pitch". *)
Theorem flat_grid_square_with_bare_entry :
  (∀ s, Flat.reachable s →
    let g := Flat.n (Flat.model s) in
    g = Flat.gridSize s ∧
    length (Flat.cells (Flat.model s)) = Z.to_nat (g * g) ∧
    (∀ i, (i < Z.to_nat (g * g))%nat → is_Some (Flat.cells (Flat.model s) !! i)) ∧
    Forall (λ snap, ∃ m, Flat.JSON_parse snap = Some m ∧ Flat.n m = g ∧
                          length (Flat.cells m) = Z.to_nat (g * g))
           (Flat.history s) ∧
    (∀ e s', Flat.step e s = Some s' →
       Flat.reachable s' ∧
       length (Flat.cells (Flat.model s')) =
         Z.to_nat (Flat.n (Flat.model s') * Flat.n (Flat.model s'))) ∧
    (∀ idx, Flat.rendered idx s = true →
       is_Some (Flat.step (Flat.PointerDown idx) s) ∧
       is_Some (Flat.step (Flat.PointerEnter idx) s)) ∧
    (∃ s', Flat.step Flat.UndoClick s = Some s' ∧
           Flat.n (Flat.model s') = g)) ∧
  (∃ s, Flat.reachable s ∧
        Flat.run [Flat.PointerDown 0; Flat.PointerUp; Flat.ToolClick select;
                  Flat.PointerDown 0; Flat.PointerUp;
                  Flat.PointerDown 0; Flat.PointerUp]
                 (Flat.init (Some 8) None) = Some s ∧
        Flat.n (Flat.model s) = 8 ∧
        length (Flat.cells (Flat.model s)) = 64%nat ∧
        Flat.cells (Flat.model s) !! 0%nat = Some (Flat.Bare "pitch") ∧
        Flat.is_tile (Flat.Bare "pitch") = false).
Proof.
  split; [|eexists; split;
             [exists (Some 8), None,
                [Flat.PointerDown 0; Flat.PointerUp; Flat.ToolClick select;
                 Flat.PointerDown 0; Flat.PointerUp;
                 Flat.PointerDown 0; Flat.PointerUp];
              vm_compute; reflexivity
             |split; [reflexivity|repeat split]]].
  intros s Hs g. pose proof (FlatInv.flat_reachable_Inv s Hs) as HI.
  destruct HI as [Hn Hc Hl Hh]. subst g. rewrite Hn.
  split; [reflexivity|]. split; [exact Hc|]. split; [|split; [|split; [|split]]].
  - intros i Hi. apply lookup_lt_is_Some_2. lia.
  - exact Hh.
  - intros e s' Hstep.
    pose proof (FlatInv.reachable_step e s s' Hs Hstep) as Hs'.
    split; [exact Hs'|]. apply FlatInv.flat_reachable_Inv in Hs'.
    destruct Hs' as [Hn' Hc' _ _]. by rewrite Hn'.
  - intros idx Hr. simpl. rewrite Hr.
    assert (HI : Flat.Inv s) by (by split).
    split.
    + unfold Flat.onPointerDown. cbv zeta.
      destruct (FlatInv.handleCellAction_Some idx
                  (Flat.set_pointer true (Some (Flat.currentTool s))
                     (Flat.pointerUpBound s) s)) as [s2 H2].
      { by apply FlatInv.set_pointer_Inv. }
      { exact Hr. }
      rewrite H2. simpl. eauto.
    + unfold Flat.onPointerEnter. destruct (_ && _); [|eauto].
      by apply FlatInv.handleCellAction_Some.
  - simpl. unfold Flat.undoBtn_click.
    case_decide as Hempty; [eauto|].
    destruct (pop_nonempty (Flat.history s)) as (prev & rest & Hpop).
    { intros E. rewrite E in Hempty. by apply Hempty. }
    rewrite Hpop. simpl. apply pop_Some in Hpop. rewrite Hpop in Hh.
    apply Forall_app in Hh as [_ Hprev].
    apply Forall_singleton in Hprev as (m & Hm & Hmn & _).
    rewrite Hm. simpl. eexists. split; [reflexivity|]. simpl.
    congruence.
Qed.

Lemma flat_grid_square_with_bare_entry_witness :
  let s := default (Flat.init None None)
             (Flat.run [Flat.PointerDown 3; Flat.PointerUp;
                        Flat.ResizeClick (Some 9) None;
                        Flat.ToolClick select; Flat.PointerDown 80;
                        Flat.ClearClick; Flat.UndoClick]
                (Flat.init (Some 5) None)) in
  Flat.n (Flat.model s) = 9 ∧ length (Flat.cells (Flat.model s)) = 81%nat.
Proof.
  cbv zeta.
  pose proof
    (proj1 flat_grid_square_with_bare_entry
       (default (Flat.init None None)
          (Flat.run [Flat.PointerDown 3; Flat.PointerUp;
                     Flat.ResizeClick (Some 9) None;
                     Flat.ToolClick select; Flat.PointerDown 80;
                     Flat.ClearClick; Flat.UndoClick]
             (Flat.init (Some 5) None)))) as H.
  destruct H as (Hg & Hlen & _).
  - exists (Some 5), None,
      [Flat.PointerDown 3; Flat.PointerUp; Flat.ResizeClick (Some 9) None;
       Flat.ToolClick select; Flat.PointerDown 80;
       Flat.ClearClick; Flat.UndoClick].
    vm_compute. reflexivity.
  - split; [rewrite Hg | rewrite Hlen]; reflexivity.
Defined.

(** C10.  The clear button pushes one snapshot, that of the model it is about
    to empty, and then empties the grid: the flat editor makes a fresh grid
    of empty tiles, the three.js editor drops the items and the meshes.  The
    grid size, the cell size and the dimension of the model are as before
    (for the flat editor, in every state it gets into), and an undo right
    after the clear goes through and brings back the model as it was. *)
Theorem clear_then_undo_restores :
  (∀ s, Flat.reachable s →
     let s1 := Flat.clearBtn_click s in
     Flat.gridSize s1 = Flat.gridSize s ∧
     Flat.cellPx s1 = Flat.cellPx s ∧
     Flat.n (Flat.model s1) = Flat.n (Flat.model s) ∧
     length (Flat.cells (Flat.model s1)) = length (Flat.cells (Flat.model s)) ∧
     Forall (λ c, c = Flat.Tile "empty" None) (Flat.cells (Flat.model s1)) ∧
     Flat.history s1 =
       push_capped 100 (Flat.JSON_stringify (Flat.model s)) (Flat.history s) ∧
     ∃ s2, Flat.undoBtn_click s1 = Some s2 ∧
           Flat.model s2 = Flat.model s ∧
           Flat.gridSize s2 = Flat.gridSize s ∧
           Flat.cellPx s2 = Flat.cellPx s) ∧
  (∀ s,
     let s1 := Scene3D.clearBtn_click s in
     Scene3D.gridSize s1 = Scene3D.gridSize s ∧
     Scene3D.cellSize s1 = Scene3D.cellSize s ∧
     Scene3D.n (Scene3D.model s1) = Scene3D.n (Scene3D.model s) ∧
     Scene3D.cell (Scene3D.model s1) = Scene3D.cell (Scene3D.model s) ∧
     Scene3D.items (Scene3D.model s1) = [] ∧
     Scene3D.placementGroup s1 = [] ∧
     Scene3D.history s1 =
       push_capped 200 (Scene3D.JSON_stringify (Scene3D.model s))
         (Scene3D.history s) ∧
     ∃ s2, Scene3D.undoBtn_click s1 = Some s2 ∧
           Scene3D.model s2 = Scene3D.model s ∧
           Scene3D.placementGroup s2 = Scene3D.items (Scene3D.model s) ∧
           Scene3D.gridSize s2 = Scene3D.gridSize s ∧
           Scene3D.cellSize s2 = Scene3D.cellSize s).
Proof.
  split.
  - intros s Hs s1. subst s1.
    destruct (FlatInv.flat_reachable_Inv s Hs) as [Hn Hc _ _].
    split; [reflexivity|]. split; [reflexivity|]. split; [by rewrite Hn|].
    split; [by rewrite Hc; apply length_replicate|].
    split; [apply Forall_replicate; reflexivity|].
    split; [reflexivity|].
    destruct (pop_push_capped 100 (Flat.JSON_stringify (Flat.model s))
                (Flat.history s)) as (rest & Hpop & _); [lia|].
    eexists. split.
    + exact (FlatInv.flat_undoBtn_click_pop (Flat.clearBtn_click s) _ _ _ Hpop
               (FlatFacts.flat_parse_stringify (Flat.model s))).
    + repeat split; reflexivity.
  - intros s s1. subst s1. repeat (split; [reflexivity|]).
    destruct (pop_push_capped 200 (Scene3D.JSON_stringify (Scene3D.model s))
                (Scene3D.history s)) as (rest & Hpop & _); [lia|].
    eexists. split.
    + exact (Scene3DInv.scene_undoBtn_click_pop (Scene3D.clearBtn_click s)
               _ _ _ Hpop (Scene3DFacts.scene_parse_stringify (Scene3D.model s))).
    + repeat split; reflexivity.
Qed.

Lemma clear_then_undo_restores_witness :
  let s := default (Flat.init None None)
             (Flat.run [Flat.ToolClick stand; Flat.PointerDown 0;
                        Flat.PointerEnter 1; Flat.PointerUp]
                (Flat.init (Some 8) (Some 20))) in
  Flat.n (Flat.model (Flat.clearBtn_click s)) = 8 ∧
  Flat.cells (Flat.model s) !! 1%nat = Some (Flat.Tile "stand" None) ∧
  Flat.cells (Flat.model (Flat.clearBtn_click s)) !! 1%nat =
    Some (Flat.Tile "empty" None) ∧
  ∃ s2, Flat.undoBtn_click (Flat.clearBtn_click s) = Some s2 ∧
        Flat.model s2 = Flat.model s.
Proof.
  cbv zeta.
  pose proof
    (proj1 clear_then_undo_restores
       (default (Flat.init None None)
          (Flat.run [Flat.ToolClick stand; Flat.PointerDown 0;
                     Flat.PointerEnter 1; Flat.PointerUp]
             (Flat.init (Some 8) (Some 20))))) as H.
  destruct H as (_ & _ & Hn & _ & _ & _ & s2 & Hundo & Hmodel & _).
  - exists (Some 8), (Some 20),
      [Flat.ToolClick stand; Flat.PointerDown 0;
       Flat.PointerEnter 1; Flat.PointerUp].
    vm_compute. reflexivity.
  - split; [rewrite Hn; reflexivity|].
    split; [reflexivity|]. split; [reflexivity|].
    exists s2. split; assumption.
Defined.

(** * Further properties of the two editors *)

(** ** More on the bounded history *)

Section HistoryMore.
Context {A : Type}.
Implicit Types (h : list A) (x : A) (cap : nat).

(** What a pop finds after a capped push: the pushed element, above the
    old stack when it had room and above its tail when it was full. *)
Lemma pop_push_capped_rest cap x h :
  (0 < cap)%nat →
  pop (push_capped cap x h) =
    Some (x, if (length h <? cap)%nat then h else tail h).
Proof.
  intros Hcap. unfold push_capped. cbv zeta. rewrite length_app. simpl length.
  destruct (Nat.ltb_spec (length h) cap) as [Hlt | Hge].
  - destruct (Nat.ltb_spec cap (length h + 1)); [lia|]. apply pop_snoc.
  - destruct (Nat.ltb_spec cap (length h + 1)); [|lia].
    destruct h as [|a h]; [simpl in Hge; lia|]. simpl. apply pop_snoc.
Qed.

Lemma push_capped_room cap x h :
  (length h < cap)%nat → push_capped cap x h = h ++ [x].
Proof.
  intros Hlt. unfold push_capped. cbv zeta. rewrite length_app. simpl length.
  destruct (Nat.ltb_spec cap (length h + 1)); [lia|reflexivity].
Qed.
End HistoryMore.

(** ** The flat editor: edits, undo and the pointer *)

Module FlatMore.
Import Flat.

(** The one place where [handleCellAction] is unfolded. *)
Lemma handleCellAction_inv idx s s' :
  handleCellAction idx s = Some s' →
  ∃ old, cells (model s) !! idx = Some old ∧
    s' = log_placed (currentTool s) idx
           (set_model
              (Model (n (model s))
                 (<[idx :=
                    if decide (currentTool s = erase) then Tile "empty" None
                    else if decide (currentTool s = select) then select_toggle old
                    else Tile (tool_name (currentTool s)) None]>
                    (cells (model s))))
              (saveHistory s)).
Proof.
  unfold handleCellAction. cbv zeta.
  change (cells (model (saveHistory s))) with (cells (model s)).
  destruct (cells (model s) !! idx) as [old|]; [|discriminate].
  simpl. intros [= <-]. eauto.
Qed.

Lemma undoBtn_click_snoc s h m :
  history s = h ++ [JSON_stringify m] →
  undoBtn_click s = Some (set_model m (set_history h s)).
Proof.
  intros Hh. apply (FlatInv.flat_undoBtn_click_pop s (JSON_stringify m)).
  - rewrite Hh. apply pop_snoc.
  - apply FlatFacts.flat_parse_stringify.
Qed.

Lemma undo_times_snoc k s :
  undo_times (S k) s = undo_times k s ≫= undoBtn_click.
Proof.
  revert s. induction k as [|k IH]; intros s.
  - simpl. destruct (undoBtn_click s); reflexivity.
  - change (undo_times (S (S k)) s) with (undoBtn_click s ≫= undo_times (S k)).
    change (undo_times (S k) s) with (undoBtn_click s ≫= undo_times k).
    destruct (undoBtn_click s) as [s1|]; [|reflexivity].
    simpl. apply IH.
Qed.

End FlatMore.

(** A cell action of the flat editor touches one cell.  Whatever the tool,
    when it goes through the other cells, the length of the array, the
    dimension, the grid size and the selected tool are as before, and the
    history has received the snapshot of the model as it was. *)
Theorem flat_cell_action_frame idx s s' :
  Flat.handleCellAction idx s = Some s' →
  (∀ j, j ≠ idx → Flat.cells (Flat.model s') !! j = Flat.cells (Flat.model s) !! j) ∧
  length (Flat.cells (Flat.model s')) = length (Flat.cells (Flat.model s)) ∧
  Flat.n (Flat.model s') = Flat.n (Flat.model s) ∧
  Flat.gridSize s' = Flat.gridSize s ∧
  Flat.currentTool s' = Flat.currentTool s ∧
  Flat.history s' =
    push_capped 100 (Flat.JSON_stringify (Flat.model s)) (Flat.history s).
Proof.
  intros Hact. apply FlatMore.handleCellAction_inv in Hact as (old & Hold & ->).
  simpl. split; [|split; [|auto]].
  - intros j Hj. by apply list_lookup_insert_ne.
  - apply length_insert.
Qed.

Lemma flat_cell_action_frame_witness :
  let s := Flat.selectTool select (Flat.init (Some 3) None) in
  let s' := default s (Flat.handleCellAction 4 s) in
  Flat.cells (Flat.model s') !! 4%nat =
    Some (Flat.Tile "selected" (Some "empty")) ∧
  Flat.cells (Flat.model s') !! 5%nat = Some (Flat.Tile "empty" None) ∧
  length (Flat.cells (Flat.model s')) = 9%nat.
Proof.
  intros s s'.
  destruct (flat_cell_action_frame 4%nat s s') as (Hframe & Hlen & _).
  - reflexivity.
  - split; [reflexivity|]. split.
    + rewrite (Hframe 5%nat) by discriminate. reflexivity.
    + rewrite Hlen. reflexivity.
Defined.

(** The erase tool of the flat editor leaves an empty tile on the cell,
    whatever was there (a tile, a selected tile or a bare string).  On a
    cell that is empty already the model does not change, and a snapshot
    is pushed all the same. *)
Theorem flat_erase idx s :
  Flat.currentTool s = erase →
  (idx < length (Flat.cells (Flat.model s)))%nat →
  ∃ s', Flat.handleCellAction idx s = Some s' ∧
        Flat.cells (Flat.model s') !! idx = Some (Flat.Tile "empty" None) ∧
        (Flat.cells (Flat.model s) !! idx = Some (Flat.Tile "empty" None) →
         Flat.model s' = Flat.model s) ∧
        Flat.history s' =
          push_capped 100 (Flat.JSON_stringify (Flat.model s)) (Flat.history s) ∧
        ((length (Flat.history s) < 100)%nat →
         length (Flat.history s') = S (length (Flat.history s))).
Proof.
  intros Htool Hidx.
  destruct (lookup_lt_is_Some_2 _ _ Hidx) as [old Hold].
  unfold Flat.handleCellAction. cbv zeta.
  change (Flat.cells (Flat.model (Flat.saveHistory s)))
    with (Flat.cells (Flat.model s)).
  change (Flat.currentTool (Flat.saveHistory s)) with (Flat.currentTool s).
  rewrite Hold, Htool. simpl. eexists. split; [reflexivity|]. simpl.
  split; [by apply list_lookup_insert_eq|]. split; [|split; [reflexivity|]].
  - intros Hempty. destruct (Flat.model s) as [k cs]. simpl in *.
    injection Hempty as ->. f_equal. by apply list_insert_id.
  - intros Hroom. rewrite push_capped_room by assumption.
    rewrite length_app. simpl. lia.
Qed.

Lemma flat_erase_witness :
  let s := Flat.selectTool erase (Flat.init (Some 3) None) in
  ∃ s', Flat.handleCellAction 0 s = Some s' ∧
        Flat.model s' = Flat.model s ∧ length (Flat.history s') = 1%nat.
Proof.
  intros s.
  destruct (flat_erase 0%nat s) as (s' & Hact & _ & Hsame & _ & Hlen).
  - reflexivity.
  - simpl. lia.
  - exists s'. split; [exact Hact|]. split.
    + apply Hsame. reflexivity.
    + apply Hlen. simpl. lia.
Defined.

(** Undo takes back one cell action of the flat editor: the model is the
    one before the action.  The history is the one before the action too
    when it had room for the snapshot; when it was full, its oldest entry
    is gone for good. *)
Theorem flat_undo_inverts_cell_action idx s s1 :
  Flat.handleCellAction idx s = Some s1 →
  ∃ s2, Flat.undoBtn_click s1 = Some s2 ∧
        Flat.model s2 = Flat.model s ∧
        Flat.history s2 =
          (if (length (Flat.history s) <? 100)%nat then Flat.history s
           else tail (Flat.history s)) ∧
        Flat.gridSize s2 = Flat.gridSize s ∧
        Flat.currentTool s2 = Flat.currentTool s.
Proof.
  intros Hact. apply FlatMore.handleCellAction_inv in Hact as (old & _ & ->).
  eexists. split.
  - apply (FlatInv.flat_undoBtn_click_pop _
             (Flat.JSON_stringify (Flat.model s))).
    + simpl. apply pop_push_capped_rest. lia.
    + apply FlatFacts.flat_parse_stringify.
  - simpl. auto.
Qed.

Lemma flat_undo_inverts_cell_action_witness :
  let s := Flat.init (Some 3) None in
  let s1 := default s (Flat.handleCellAction 2 s) in
  Flat.cells (Flat.model s1) !! 2%nat = Some (Flat.Tile "pitch" None) ∧
  ∃ s2, Flat.undoBtn_click s1 = Some s2 ∧
        Flat.model s2 = Flat.model s ∧ Flat.history s2 = [].
Proof.
  intros s s1. split; [reflexivity|].
  destruct (flat_undo_inverts_cell_action 2%nat s s1)
    as (s2 & Hundo & Hmodel & Hhist & _); [reflexivity|].
  exists s2. split; [exact Hundo|]. split; [exact Hmodel|]. exact Hhist.
Defined.

(** As many undos as there were cell actions bring the flat editor back:
    after any run of cell actions, each with a tool of its own, for which
    the history had room, that many presses of the undo button all go
    through and end on the model and the history the run started from. *)
Theorem flat_undo_all acts s s' :
  Flat.act_all acts s = Some s' →
  (length (Flat.history s) + length acts ≤ 100)%nat →
  ∃ s'', Flat.undo_times (length acts) s' = Some s'' ∧
         Flat.model s'' = Flat.model s ∧
         Flat.history s'' = Flat.history s.
Proof.
  revert s. induction acts as [|[t idx] acts IH]; intros s Hrun Hroom.
  - injection Hrun as <-. exists s. auto.
  - change (Flat.act_all ((t, idx) :: acts) s)
      with (Flat.handleCellAction idx (Flat.selectTool t s) ≫= Flat.act_all acts)
      in Hrun.
    destruct (Flat.handleCellAction idx (Flat.selectTool t s)) as [s1|] eqn:H1;
      [|discriminate].
    simpl in Hrun, Hroom.
    pose proof (FlatMore.handleCellAction_inv _ _ _ H1) as (old & _ & Hs1).
    assert (Hh1 : Flat.history s1 =
                  Flat.history s ++ [Flat.JSON_stringify (Flat.model s)]).
    { rewrite Hs1. simpl. apply push_capped_room. lia. }
    destruct (IH s1 Hrun) as (s2 & Hundo & Hm2 & Hh2).
    { rewrite Hh1, length_app. simpl. lia. }
    change (length ((t, idx) :: acts)) with (S (length acts)).
    rewrite FlatMore.undo_times_snoc, Hundo. simpl.
    rewrite Hh1 in Hh2.
    rewrite (FlatMore.undoBtn_click_snoc s2 _ _ Hh2).
    eexists. split; [reflexivity|]. simpl. auto.
Qed.

Lemma flat_undo_all_witness :
  let s := Flat.init (Some 3) None in
  let acts := [(pitch, 0%nat); (select, 0%nat); (select, 0%nat);
               (erase, 4%nat); (flag, 8%nat)] in
  let s' := default s (Flat.act_all acts s) in
  Flat.cells (Flat.model s') !! 0%nat = Some (Flat.Bare "pitch") ∧
  ∃ s'', Flat.undo_times 5 s' = Some s'' ∧
         Flat.model s'' = Flat.model s ∧ Flat.history s'' = [].
Proof.
  intros s acts s'. split; [vm_compute; reflexivity|].
  apply (flat_undo_all acts s s').
  - vm_compute. reflexivity.
  - simpl. lia.
Defined.

Module FlatPointer.
Import Flat.

Lemma init_flags a b : pointer_flags_agree (init a b).
Proof. split; [reflexivity|]. split; reflexivity. Qed.

Lemma undoBtn_click_flags s s' :
  undoBtn_click s = Some s' →
  pointerUpBound s' = pointerUpBound s ∧
  isPointerDown s' = isPointerDown s ∧
  pointerTool s' = pointerTool s.
Proof.
  unfold undoBtn_click. case_decide; [by intros [= <-]|].
  destruct (pop (history s)) as [[prev rest]|]; [|discriminate]. simpl.
  destruct (JSON_parse prev) as [m|]; [|discriminate]. simpl.
  by intros [= <-].
Qed.

Lemma flags_transfer s s' :
  pointerUpBound s' = pointerUpBound s ∧
  isPointerDown s' = isPointerDown s ∧
  pointerTool s' = pointerTool s →
  pointer_flags_agree s → pointer_flags_agree s'.
Proof.
  intros (Hb & Hd & Ht) [Hbd Htd]. unfold pointer_flags_agree.
  rewrite Hb, Hd, Ht. by split.
Qed.

Lemma step_flags e s s' :
  step e s = Some s' → pointer_flags_agree s → pointer_flags_agree s'.
Proof.
  destruct e as [idx|idx| |t|key ctrl|a b| |]; simpl; intros Hstep Hf.
  - destruct (rendered idx s); [|discriminate].
    unfold onPointerDown in Hstep. cbv zeta in Hstep.
    destruct (handleCellAction idx _) as [s2|] eqn:H2; [|discriminate].
    simpl in Hstep. injection Hstep as <-.
    apply FlatMore.handleCellAction_inv in H2 as (old & _ & ->).
    split; [reflexivity|]. simpl. split; discriminate.
  - destruct (rendered idx s); [|discriminate].
    unfold onPointerEnter in Hstep.
    destruct (_ && _); [|by injection Hstep as <-].
    apply FlatMore.handleCellAction_inv in Hstep as (old & _ & ->).
    revert Hf. by apply flags_transfer.
  - injection Hstep as <-. destruct (pointerUpBound s); [|assumption].
    split; [reflexivity|]. by split.
  - injection Hstep as <-. revert Hf. by apply flags_transfer.
  - unfold onKeyDown in Hstep.
    destruct (_ && _);
      [revert Hf; by apply flags_transfer, undoBtn_click_flags|].
    repeat (case_bool_decide;
            [injection Hstep as <-; revert Hf; by apply flags_transfer|]).
    by injection Hstep as <-.
  - injection Hstep as <-. revert Hf. by apply flags_transfer.
  - revert Hf. by apply flags_transfer, undoBtn_click_flags.
  - injection Hstep as <-. revert Hf. by apply flags_transfer.
Qed.

Lemma reachable_flags s : reachable s → pointer_flags_agree s.
Proof.
  intros (a & b & evs & Hrun). revert Hrun.
  generalize (init_flags a b). generalize (init a b).
  induction evs as [|e evs IH]; simpl; intros s0 Hf Hrun.
  - by injection Hrun as <-.
  - destruct (step e s0) as [s1|] eqn:H1; [|discriminate].
    simpl in Hrun. eapply IH; [|exact Hrun]. by eapply step_flags.
Qed.

Lemma hover_without_press idxs s :
  isPointerDown s = false →
  Forall (λ i, rendered i s = true) idxs →
  run (PointerEnter <$> idxs) s = Some s.
Proof.
  intros Hup. induction 1 as [|i idxs Hi _ IH]; [reflexivity|].
  simpl. rewrite Hi. unfold onPointerEnter. rewrite Hup. simpl. exact IH.
Qed.

End FlatPointer.

(** In every state the flat editor gets into, [onPointerUp] is registered
    on the window exactly while the pointer is held and a stroke tool is
    recorded exactly then.  So a pointer-up, wherever it happens, always
    ends the stroke, leaving model and history alone, and after it moving
    over the cells, however many, changes nothing at all. *)
Theorem flat_pointer_up_ends_stroke s :
  Flat.reachable s →
  Flat.pointer_flags_agree s ∧
  ∃ s', Flat.step Flat.PointerUp s = Some s' ∧
        Flat.isPointerDown s' = false ∧
        Flat.pointerTool s' = None ∧
        Flat.model s' = Flat.model s ∧
        Flat.history s' = Flat.history s ∧
        ∀ idxs, Forall (λ i, Flat.rendered i s = true) idxs →
                Flat.run (Flat.PointerEnter <$> idxs) s' = Some s'.
Proof.
  intros Hs. pose proof (FlatPointer.reachable_flags s Hs) as Hf.
  split; [exact Hf|]. destruct Hf as [Hbd Htd].
  eexists. split; [reflexivity|].
  destruct (Flat.pointerUpBound s) eqn:Hb.
  - repeat (split; [reflexivity|]). intros idxs Hidxs.
    apply FlatPointer.hover_without_press; [reflexivity|exact Hidxs].
  - symmetry in Hbd. split; [exact Hbd|]. split; [by apply Htd|].
    split; [reflexivity|]. split; [reflexivity|]. intros idxs Hidxs.
    by apply FlatPointer.hover_without_press.
Qed.

Lemma flat_pointer_up_ends_stroke_witness :
  let s := default (Flat.init None None)
             (Flat.run [Flat.PointerDown 0; Flat.PointerEnter 1]
                (Flat.init (Some 3) None)) in
  Flat.isPointerDown s = true ∧
  ∃ s', Flat.step Flat.PointerUp s = Some s' ∧
        Flat.isPointerDown s' = false ∧
        Flat.run [Flat.PointerEnter 2; Flat.PointerEnter 5] s' = Some s'.
Proof.
  intros s. split; [reflexivity|].
  destruct (flat_pointer_up_ends_stroke s)
    as (_ & s' & Hup & Hdown & _ & _ & _ & Hhover).
  - exists (Some 3), None, [Flat.PointerDown 0; Flat.PointerEnter 1].
    vm_compute. reflexivity.
  - exists s'. split; [exact Hup|]. split; [exact Hdown|].
    apply (Hhover [2%nat; 5%nat]). repeat constructor.
Defined.

(** ** The three.js editor: the model, the meshes and the snapshots agree *)

Module SceneConsistent.
Import Scene3D.

Lemma Forall_filter_keep {A} (P Q : A → Prop) `{!∀ x, Decision (Q x)}
    (l : list A) :
  Forall P l → Forall P (filter Q l).
Proof.
  rewrite !Forall_forall. intros Hl x Hx.
  apply list_elem_of_filter in Hx as [_ Hx]. by apply Hl.
Qed.

Lemma cell_not_elsewhere i k (l : list item) :
  (i, k) ∉ cell_of <$> filter (elsewhere i k) l.
Proof.
  intros Hin. apply list_elem_of_fmap in Hin as (it & Hcell & Hit).
  apply list_elem_of_filter in Hit as [Hel _].
  apply Hel. unfold cell_of in Hcell. by injection Hcell as <- <-.
Qed.

Lemma NoDup_cells_filter (P : item → Prop) `{!∀ x, Decision (P x)}
    (l : list item) :
  NoDup (cell_of <$> l) → NoDup (cell_of <$> filter P l).
Proof.
  intros Hl. eapply sublist_NoDup; [exact Hl|].
  apply fmap_sublist, sublist_filter.
Qed.

(** The clamp gives indices of the grid. *)
Lemma hit_cell_in_grid m p t :
  in_grid (n m) (Item t (hit_cell m p).1 (hit_cell m p).2).
Proof.
  unfold in_grid, hit_cell, getGridCoordsFromIntersection. simpl. lia.
Qed.

Lemma model_ok_add g c m t i k :
  model_ok g c m → in_grid g (Item t i k) →
  model_ok g c (Model (n m) (cell m) (filter (elsewhere i k) (items m) ++ [Item t i k])).
Proof.
  intros (Hn & Hc & Hnd & Hall) Hin. repeat split; simpl; try assumption.
  - rewrite fmap_app. apply NoDup_app. split; [by apply NoDup_cells_filter|].
    split; [|apply NoDup_singleton].
    intros x Hx Hx'. apply list_elem_of_singleton in Hx'. subst x.
    by apply cell_not_elsewhere in Hx.
  - apply Forall_app. split; [by apply Forall_filter_keep|].
    by apply Forall_singleton.
Qed.

Lemma model_ok_remove g c m i k :
  model_ok g c m →
  model_ok g c (Model (n m) (cell m) (filter (elsewhere i k) (items m))).
Proof.
  intros (Hn & Hc & Hnd & Hall). repeat split; simpl; try assumption.
  - by apply NoDup_cells_filter.
  - by apply Forall_filter_keep.
Qed.

Lemma init_Consistent a b : Consistent (init a b).
Proof.
  split; simpl; [|constructor|constructor].
  repeat split; simpl; constructor.
Qed.

Lemma saveHistory_history s :
  Consistent s →
  Forall (λ j, ∃ m, JSON_parse j = Some m ∧
                    model_ok (gridSize s) (cellSize s) m)
         (history (saveHistory s)).
Proof.
  intros [Hm _ Hh]. simpl. apply push_capped_Forall; [exact Hh|].
  exists (model s). split; [apply Scene3DFacts.scene_parse_stringify|exact Hm].
Qed.

Lemma filter_sublist_both (P : item → Prop) `{!∀ x, Decision (P x)}
    (l1 l2 : list item) :
  l1 `sublist_of` l2 → filter P l1 `sublist_of` filter P l2.
Proof.
  induction 1 as [|x l1 l2 _ IH|x l1 l2 _ IH]; [constructor| |].
  - rewrite !filter_cons. destruct (decide (P x)); [by constructor|exact IH].
  - rewrite filter_cons. destruct (decide (P x)); [by constructor|exact IH].
Qed.

Lemma addItem_Consistent t i k s :
  Consistent s → in_grid (gridSize s) (Item t i k) →
  Consistent (addItem t i k s).
Proof.
  intros HC Hin. pose proof (saveHistory_history s HC) as Hh.
  destruct HC as [Hm Hsub _]. split; simpl.
  - by apply model_ok_add.
  - apply sublist_app; [|reflexivity].
    etransitivity; [apply sublist_filter|exact Hsub].
  - exact Hh.
Qed.

Lemma removeItemAt_Consistent i k s :
  Consistent s → Consistent (removeItemAt i k s).
Proof.
  intros HC. pose proof (saveHistory_history s HC) as Hh.
  destruct HC as [Hm Hsub _]. split; simpl.
  - by apply model_ok_remove.
  - by apply filter_sublist_both.
  - exact Hh.
Qed.

Lemma handlePointerEvent_Consistent hit s :
  Consistent s → Consistent (handlePointerEvent hit s).
Proof.
  intros HC. destruct hit as [p|]; simpl; [|assumption].
  set (c := hit_cell _ _). repeat case_decide; try assumption.
  - destruct (removeItemAt_Consistent c.1 c.2 s HC) as [? ? ?]. by split.
  - destruct (addItem_Consistent (tool_name (currentTool s)) c.1 c.2 s HC)
      as [? ? ?]; [|by split].
    destruct HC as [(Hn & _) _ _]. rewrite <- Hn. apply hit_cell_in_grid.
Qed.

Lemma undoBtn_click_Consistent s s' :
  undoBtn_click s = Some s' → Consistent s → Consistent s'.
Proof.
  unfold undoBtn_click. intros Hstep [Hm Hsub Hh].
  case_decide; [by injection Hstep as <-|].
  destruct (pop (history s)) as [[prev rest]|] eqn:Hpop; [|discriminate].
  simpl in Hstep. apply pop_Some in Hpop. rewrite Hpop in Hh.
  apply Forall_app in Hh as [Hrest Hprev].
  apply Forall_singleton in Hprev as (m & Hparse & Hok).
  rewrite Hparse in Hstep. simpl in Hstep. injection Hstep as <-.
  split; simpl; [exact Hok|reflexivity|exact Hrest].
Qed.

Lemma step_Consistent e s s' :
  step e s = Some s' → Consistent s → Consistent s'.
Proof.
  destruct e as [hit|hit| |t|a b| |]; simpl; intros Hstep HC;
    try (injection Hstep as <-).
  - apply handlePointerEvent_Consistent. destruct HC. by split.
  - unfold onPointerMove. destruct (_ && _); [|assumption].
    by apply handlePointerEvent_Consistent.
  - destruct HC. by split.
  - destruct HC. by split.
  - split; simpl; [|constructor|constructor].
    repeat split; simpl; constructor.
  - by eapply undoBtn_click_Consistent.
  - pose proof (saveHistory_history s HC) as Hh.
    destruct HC as [(Hn & Hc & _) _ _]. split; simpl.
    + repeat split; simpl; try assumption; constructor.
    + constructor.
    + exact Hh.
Qed.

Lemma reachable_Consistent s : reachable s → Consistent s.
Proof.
  intros (a & b & evs & Hrun). revert Hrun.
  generalize (init_Consistent a b). generalize (init a b).
  induction evs as [|e evs IH]; simpl; intros s0 HC Hrun.
  - by injection Hrun as <-.
  - destruct (step e s0) as [s1|] eqn:H1; [|discriminate].
    simpl in Hrun. eapply IH; [|exact Hrun]. by eapply step_Consistent.
Qed.

End SceneConsistent.

(** In every state the three.js editor gets into, the model has the grid
    size and the cell size of the editor, no two of its items sit on one
    cell, and every item lies where the clamp of the coordinates can put
    it: between 0 and [n-1] on both axes when the grid has a cell at all. *)
Theorem scene_one_item_per_cell s :
  Scene3D.reachable s →
  Scene3D.n (Scene3D.model s) = Scene3D.gridSize s ∧
  Scene3D.cell (Scene3D.model s) = Scene3D.cellSize s ∧
  (∀ i j a b,
     Scene3D.items (Scene3D.model s) !! i = Some a →
     Scene3D.items (Scene3D.model s) !! j = Some b →
     Scene3D.ix a = Scene3D.ix b → Scene3D.iz a = Scene3D.iz b → i = j) ∧
  (∀ it, it ∈ Scene3D.items (Scene3D.model s) →
     1 ≤ Scene3D.gridSize s →
     0 ≤ Scene3D.ix it ≤ Scene3D.gridSize s - 1 ∧
     0 ≤ Scene3D.iz it ≤ Scene3D.gridSize s - 1).
Proof.
  intros Hs. apply SceneConsistent.reachable_Consistent in Hs.
  destruct Hs as [(Hn & Hc & Hnd & Hall) _ _].
  split; [exact Hn|]. split; [exact Hc|]. split.
  - intros i j a b Ha Hb Hx Hz.
    apply (NoDup_lookup _ i j (Scene3D.cell_of a) Hnd).
    + by rewrite list_lookup_fmap, Ha.
    + rewrite list_lookup_fmap, Hb. simpl. unfold Scene3D.cell_of.
      by rewrite Hx, Hz.
  - intros it Hit Hg. rewrite Forall_forall in Hall.
    specialize (Hall it Hit). unfold Scene3D.in_grid in Hall. lia.
Qed.

Lemma scene_one_item_per_cell_witness :
  let s := default (Scene3D.init None None)
             (Scene3D.run [Scene3D.PointerDown (Some (Scene3D.Point 0 0));
                           Scene3D.PointerMove (Some (Scene3D.Point 1 0));
                           Scene3D.PointerMove (Some (Scene3D.Point 3 0));
                           Scene3D.PointerUp; Scene3D.ToolClick stand;
                           Scene3D.PointerDown (Some (Scene3D.Point 0 0))]
                (Scene3D.init None None)) in
  Scene3D.items (Scene3D.model s) =
    [Scene3D.Item "pitch" 12 11; Scene3D.Item "pitch" 13 11;
     Scene3D.Item "stand" 11 11] ∧
  Scene3D.n (Scene3D.model s) = 24.
Proof.
  intros s. split; [vm_compute; reflexivity|].
  destruct (scene_one_item_per_cell s) as (Hn & _).
  - exists None, None,
      [Scene3D.PointerDown (Some (Scene3D.Point 0 0));
       Scene3D.PointerMove (Some (Scene3D.Point 1 0));
       Scene3D.PointerMove (Some (Scene3D.Point 3 0));
       Scene3D.PointerUp; Scene3D.ToolClick stand;
       Scene3D.PointerDown (Some (Scene3D.Point 0 0))].
    vm_compute. reflexivity.
  - rewrite Hn. reflexivity.
Defined.

(** In every state the three.js editor gets into, each item of the model
    has its mesh: the items are, in order, among the meshes of the
    placement group.  The undo button always goes through there, and when
    there was a snapshot to restore the meshes afterwards are exactly the
    items of the restored model. *)
Theorem scene_items_have_meshes s :
  Scene3D.reachable s →
  Scene3D.items (Scene3D.model s) `sublist_of` Scene3D.placementGroup s ∧
  ∃ s', Scene3D.undoBtn_click s = Some s' ∧
        (Scene3D.history s ≠ [] →
         Scene3D.placementGroup s' = Scene3D.items (Scene3D.model s') ∧
         length (Scene3D.history s') = pred (length (Scene3D.history s))).
Proof.
  intros Hs. apply SceneConsistent.reachable_Consistent in Hs.
  destruct Hs as [_ Hsub Hh]. split; [exact Hsub|].
  destruct (decide (Scene3D.history s = [])) as [Hhist | Hhist].
  - exists s. split; [|done]. unfold Scene3D.undoBtn_click. by rewrite Hhist.
  - destruct (pop_nonempty (Scene3D.history s)) as (prev & rest & Hpop);
      [exact Hhist|].
    pose proof (pop_Some _ _ _ Hpop) as Hsplit. rewrite Hsplit in Hh.
    apply Forall_app in Hh as [_ Hprev].
    apply Forall_singleton in Hprev as (m & Hparse & _).
    eexists. split;
      [exact (Scene3DInv.scene_undoBtn_click_pop s _ _ _ Hpop Hparse)|].
    intros _. split; [reflexivity|]. simpl.
    rewrite Hsplit, length_app. simpl. lia.
Qed.

Lemma scene_items_have_meshes_witness :
  let s := default (Scene3D.init None None)
             (Scene3D.run
                [Scene3D.PointerDown (Some (Scene3D.Point 0 0));
                 Scene3D.ToolClick flag;
                 Scene3D.PointerMove (Some (Scene3D.Point 0 0))]
                (Scene3D.init None None)) in
  Scene3D.items (Scene3D.model s) `sublist_of` Scene3D.placementGroup s ∧
  Scene3D.items (Scene3D.model s) = [Scene3D.Item "flag" 11 11] ∧
  Scene3D.placementGroup s =
    [Scene3D.Item "pitch" 11 11; Scene3D.Item "flag" 11 11].
Proof.
  intros s. split; [|split; vm_compute; reflexivity].
  apply (scene_items_have_meshes s).
  exists None, None,
    [Scene3D.PointerDown (Some (Scene3D.Point 0 0));
     Scene3D.ToolClick flag;
     Scene3D.PointerMove (Some (Scene3D.Point 0 0))].
  vm_compute. reflexivity.
Defined.


(** Erasing in the three.js editor: the items on other cells stay, in
    their order, and the cell ends with no item.  When the cell had none
    the model is unchanged, and the snapshot is pushed all the same. *)
Theorem scene_erase_frame i k s :
  let s1 := Scene3D.removeItemAt i k s in
  Scene3D.items (Scene3D.model s1) =
    filter (Scene3D.elsewhere i k) (Scene3D.items (Scene3D.model s)) ∧
  (∀ it, it ∈ Scene3D.items (Scene3D.model s1) ↔
         it ∈ Scene3D.items (Scene3D.model s) ∧
         ¬ (Scene3D.ix it = i ∧ Scene3D.iz it = k)) ∧
  (Forall (Scene3D.elsewhere i k) (Scene3D.items (Scene3D.model s)) →
   Scene3D.model s1 = Scene3D.model s) ∧
  Scene3D.history s1 =
    push_capped 200 (Scene3D.JSON_stringify (Scene3D.model s))
      (Scene3D.history s).
Proof.
  intros s1. subst s1. split; [reflexivity|]. split; [|split; [|reflexivity]].
  - intros it. simpl. rewrite list_elem_of_filter.
    unfold Scene3D.elsewhere. tauto.
  - intros Hfree. simpl.
    destruct (Scene3D.model s) as [g c its]. simpl in *.
    f_equal. induction Hfree as [|it l Hit _ IH]; [reflexivity|].
    rewrite filter_cons_True by exact Hit. by rewrite IH.
Qed.

Lemma scene_erase_frame_witness :
  let s := Scene3D.init None None in
  Scene3D.model (Scene3D.removeItemAt 3 4 s) = Scene3D.model s ∧
  length (Scene3D.history (Scene3D.removeItemAt 3 4 s)) = 1%nat.
Proof.
  intros s. split; [|reflexivity].
  apply (scene_erase_frame 3 4 s). constructor.
Defined.

(** Undo takes back one edit of the three.js editor.  After a pointer
    event that hits the plane with a paint tool or the eraser selected,
    the undo button restores the model of before and rebuilds one mesh per
    item of it; the history is the one of before when it had room for the
    snapshot, and has lost its oldest entry when it was full. *)
Theorem scene_undo_inverts_edit p s :
  Scene3D.currentTool s ≠ select →
  let s1 := Scene3D.handlePointerEvent (Some p) s in
  ∃ s2, Scene3D.undoBtn_click s1 = Some s2 ∧
        Scene3D.model s2 = Scene3D.model s ∧
        Scene3D.placementGroup s2 = Scene3D.items (Scene3D.model s) ∧
        Scene3D.history s2 =
          (if (length (Scene3D.history s) <? 200)%nat then Scene3D.history s
           else tail (Scene3D.history s)).
Proof.
  intros Hsel s1. subst s1.
  assert (Hpop : pop (Scene3D.history (Scene3D.handlePointerEvent (Some p) s)) =
                 Some (Scene3D.JSON_stringify (Scene3D.model s),
                       if (length (Scene3D.history s) <? 200)%nat
                       then Scene3D.history s else tail (Scene3D.history s))).
  { simpl. repeat case_decide; try done;
      simpl; apply pop_push_capped_rest; lia. }
  eexists. split.
  - exact (Scene3DInv.scene_undoBtn_click_pop _ _ _ _ Hpop
             (Scene3DFacts.scene_parse_stringify (Scene3D.model s))).
  - simpl. auto.
Qed.

Lemma scene_undo_inverts_edit_witness :
  let s := Scene3D.addItem "stand" 11 11 (Scene3D.init None None) in
  let s1 := Scene3D.handlePointerEvent (Some (Scene3D.Point 0 0)) s in
  Scene3D.items (Scene3D.model s1) = [Scene3D.Item "pitch" 11 11] ∧
  ∃ s2, Scene3D.undoBtn_click s1 = Some s2 ∧
        Scene3D.items (Scene3D.model s2) = [Scene3D.Item "stand" 11 11] ∧
        Scene3D.placementGroup s2 = [Scene3D.Item "stand" 11 11].
Proof.
  intros s s1. split; [vm_compute; reflexivity|].
  destruct (scene_undo_inverts_edit (Scene3D.Point 0 0) s)
    as (s2 & Hundo & Hmodel & Hgroup & _); [discriminate|].
  exists s2. split; [exact Hundo|]. split.
  - rewrite Hmodel. reflexivity.
  - rewrite Hgroup. reflexivity.
Defined.

(** ** The three.js editor: points, cells and meshes *)

Module SceneCoords.
Import Scene3D.

Lemma Qfloor_unique (k : Z) (q : Q) :
  (inject_Z k <= q)%Q → (q < inject_Z (k + 1))%Q → Qfloor q = k.
Proof.
  intros Hle Hlt.
  pose proof (Qfloor_le q) as H1. pose proof (Qlt_floor q) as H2.
  assert (Ha : (inject_Z (Qfloor q) < inject_Z (k + 1))%Q) by lra.
  assert (Hb : (inject_Z k < inject_Z (Qfloor q + 1))%Q) by lra.
  rewrite <- Zlt_Qlt in Ha, Hb. lia.
Qed.

(** The middle of cell [k] is mapped to [k]. *)
Lemma floor_of_centre (k : Z) (c t : Q) :
  (0 < c)%Q → (t == inject_Z k * c + c / 2)%Q →
  Qfloor (t / c + (1 # 100000)) = k.
Proof.
  intros Hc Ht. apply Qfloor_unique.
  - assert (He : (t / c + (1 # 100000) ==
                  inject_Z k + (1 # 2) + (1 # 100000))%Q).
    { rewrite Ht. field. lra. }
    rewrite He. lra.
  - assert (He : (t / c + (1 # 100000) ==
                  inject_Z k + (1 # 2) + (1 # 100000))%Q).
    { rewrite Ht. field. lra. }
    rewrite He, inject_Z_plus. change (inject_Z 1) with 1%Q. lra.
Qed.

(** A coordinate and the floor it is sent to, before the clamp. *)
Lemma floor_bounds (c t : Q) :
  (0 < c)%Q →
  let k := Qfloor (t / c + (1 # 100000)) in
  (inject_Z k * c <= t + c * (1 # 100000))%Q ∧
  (t + c * (1 # 100000) < inject_Z k * c + c)%Q.
Proof.
  intros Hc k.
  pose proof (Qfloor_le (t / c + (1 # 100000))) as H1.
  pose proof (Qlt_floor (t / c + (1 # 100000))) as H2.
  fold k in H1, H2. rewrite inject_Z_plus in H2.
  change (inject_Z 1) with 1%Q in H2.
  assert (He : ((t / c + (1 # 100000)) * c == t + c * (1 # 100000))%Q)
    by (field; lra).
  split.
  - rewrite <- He. apply Qmult_le_compat_r; [exact H1|lra].
  - rewrite <- He.
    assert (Hk : (inject_Z k * c + c == (inject_Z k + 1) * c)%Q) by ring.
    rewrite Hk.
    apply Qmult_lt_compat_r; [exact Hc|exact H2].
Qed.

End SceneCoords.

(** The two coordinate maps of the three.js editor are inverse on the
    grid: for a positive cell size and indices between 0 and [n-1],
    [getGridCoordsFromIntersection] sends the world position of a cell back
    to its indices, and a pointer hit on the very spot where the mesh of a
    cell is put is read as that cell. *)
Theorem scene_grid_roundtrip m ix iz :
  (0 < Scene3D.cell m)%Q →
  0 ≤ ix ≤ Scene3D.n m - 1 →
  0 ≤ iz ≤ Scene3D.n m - 1 →
  Scene3D.getGridCoordsFromIntersection m
    (Scene3D.worldPositionFromGrid m ix iz) = (ix, iz) ∧
  Scene3D.hit_cell m (Scene3D.meshPosition m ix iz) = (ix, iz).
Proof.
  intros Hc Hx Hz. split.
  - unfold Scene3D.getGridCoordsFromIntersection, Scene3D.worldPositionFromGrid.
    cbv zeta. simpl Scene3D.x. simpl Scene3D.z.
    rewrite !(SceneCoords.floor_of_centre _ _ _ Hc) by reflexivity.
    f_equal; lia.
  - unfold Scene3D.hit_cell, Scene3D.meshPosition,
      Scene3D.getGridCoordsFromIntersection, Scene3D.worldPositionFromGrid.
    cbv zeta. simpl Scene3D.x. simpl Scene3D.z.
    rewrite (SceneCoords.floor_of_centre ix) by (exact Hc || ring).
    rewrite (SceneCoords.floor_of_centre iz) by (exact Hc || ring).
    f_equal; lia.
Qed.

Lemma scene_grid_roundtrip_witness :
  let m := Scene3D.Model 24 (3 # 2) [] in
  Scene3D.getGridCoordsFromIntersection m
    (Scene3D.worldPositionFromGrid m 0 23) = (0, 23) ∧
  Scene3D.hit_cell m (Scene3D.meshPosition m 0 23) = (0, 23).
Proof.
  intros m. apply (scene_grid_roundtrip m 0 23).
  - reflexivity.
  - simpl. lia.
  - simpl. lia.
Defined.

Module SceneAxis.
Import Scene3D.

(** Linear arithmetic over the rationals, with halves read as products. *)
Ltac halves_lra :=
  unfold Qdiv in *; change (/ 2)%Q with (1 # 2)%Q in *; lra.

(** The exact floor is within any distance of the sum it floors. *)
Lemma floor_within_exact (u : Q) : floor_within (Qfloor u) u.
Proof.
  pose proof (Qfloor_le u) as H1. pose proof (Qlt_floor u) as H2.
  rewrite inject_Z_plus in H2. change (inject_Z 1) with 1%Q in H2.
  split; lra.
Qed.

(** One axis of the clamp followed by [meshPosition], for a coordinate
    whose cell the clamp leaves alone and a floor [k] as the doubles may
    give it. *)
Lemma axis_under_pointer (g k : Z) (c v : Q) :
  (0 < c)%Q →
  (c / 2 - inject_Z g * c / 2 <= v)%Q →
  (v < inject_Z g * c / 2 + c / 2 - 2 * c * (1 # 100000))%Q →
  floor_within k ((v + inject_Z g * c / 2 - c / 2) / c + (1 # 100000)) →
  let i := clamp_index g (FlInt k) in
  let mx := (inject_Z i * c + c / 2 - inject_Z g * c / 2 + c / 2)%Q in
  (v - c / 2 < mx)%Q ∧ (mx <= v + c / 2 + 2 * c * (1 # 100000))%Q.
Proof.
  intros Hc Hlo Hhi [Hk1 Hk2].
  set (t := (v + inject_Z g * c / 2 - c / 2)%Q) in *.
  assert (Ht0 : (0 <= t)%Q) by (subst t; clear - Hlo; halves_lra).
  assert (Htg : (t < inject_Z g * c - 2 * c * (1 # 100000))%Q)
    by (subst t; clear - Hhi; halves_lra).
  assert (Hq0 : (0 <= t / c)%Q).
  { apply Qle_shift_div_l; [exact Hc|]. lra. }
  assert (Hqg : (t / c < inject_Z g - 2 * (1 # 100000))%Q).
  { apply Qlt_shift_div_r; [exact Hc|].
    assert (He : ((inject_Z g - 2 * (1 # 100000)) * c ==
                  inject_Z g * c - 2 * c * (1 # 100000))%Q) by ring.
    rewrite He. exact Htg. }
  assert (Hk0 : 0 ≤ k).
  { assert (Hlt : (inject_Z 0 < inject_Z (k + 1))%Q).
    { rewrite inject_Z_plus. change (inject_Z 1) with 1%Q.
      change (inject_Z 0) with 0%Q. lra. }
    rewrite <- Zlt_Qlt in Hlt. lia. }
  assert (Hkg : k < g).
  { assert (Hlt : (inject_Z k < inject_Z g)%Q) by lra.
    by rewrite <- Zlt_Qlt in Hlt. }
  assert (Hb1 : (inject_Z k * c <= t + 2 * c * (1 # 100000))%Q).
  { assert (He : ((t / c + 2 * (1 # 100000)) * c ==
                  t + 2 * c * (1 # 100000))%Q) by (field; lra).
    rewrite <- He. apply Qmult_le_compat_r; lra. }
  assert (Hb2 : (t < inject_Z k * c + c)%Q).
  { assert (He : (t / c * c == t)%Q) by (field; lra).
    assert (Hk : (inject_Z k * c + c == (inject_Z k + 1) * c)%Q) by ring.
    rewrite Hk, <- He. apply Qmult_lt_compat_r; [exact Hc|lra]. }
  intros i mx. subst i mx. unfold clamp_index.
  replace (Z.max 0 (Z.min (g - 1) k)) with k by lia.
  subst t. clear - Hb1 Hb2. split; halves_lra.
Qed.

(** One axis of [hit_cell] for a coordinate of the placement plane. *)
Lemma axis_of_plane (g : Z) (c v : Q) :
  (0 < c)%Q → 2 ≤ g →
  (inject_Z g * c / 2 - c / 2 - inject_Z g * c / 2 <= v)%Q →
  let k := Z.max 0 (Z.min (g - 1)
             (Qfloor ((v + inject_Z g * c / 2 - c / 2) / c + (1 # 100000)))) in
  (g - 2) / 2 ≤ k ≤ g - 1.
Proof.
  intros Hc Hg Hv.
  set (t := (v + inject_Z g * c / 2 - c / 2)%Q).
  set (f := Qfloor (t / c + (1 # 100000))).
  assert (Hf : (g - 2) / 2 ≤ f).
  { replace ((g - 2) / 2) with (Qfloor (inject_Z (g - 2) / 2))
      by (unfold Qfloor; simpl; by rewrite Z.mul_1_r).
    apply Qfloor_resp_le.
    assert (Hd : (inject_Z (g - 2) / 2 <= t / c)%Q).
    { apply Qle_shift_div_l; [exact Hc|].
      assert (He : (inject_Z (g - 2) / 2 * c == inject_Z g * c / 2 - c)%Q).
      { unfold Z.sub. rewrite inject_Z_plus.
        change (inject_Z (- (2))) with (- (2))%Q. field. }
      rewrite He. subst t. clear - Hv. halves_lra. }
    lra. }
  assert (H0 : 0 ≤ (g - 2) / 2) by (apply Z.div_pos; lia).
  assert (H1 : (g - 2) / 2 ≤ g - 1) by (apply Z.div_le_upper_bound; lia).
  intros k. subst k. lia.
Qed.

End SceneAxis.

(** A tile lands under the pointer.  Take a hit on the plane at a point
    whose cell the clamp leaves alone, and for the two floors any integers
    that are floors of numbers within 1e-5 of the exact sums, as those that
    the doubles give are.  The mesh of the cell is then put within half a
    cell of the point on each axis: less than half a cell beyond it on one
    side, at most half a cell and twice the epsilon of the floor on the
    other.  The floors of exact arithmetic are such integers, so the same
    holds of [hit_cell].  Positions are exact rationals. *)
Theorem scene_mesh_under_pointer m p kx kz :
  let c := Scene3D.cell m in
  let half := (inject_Z (Scene3D.n m) * c / 2)%Q in
  let inside := λ v : Q,
    (c / 2 - half <= v)%Q ∧
    (v < half + c / 2 - 2 * c * (1 # 100000))%Q in
  let near := λ v w : Q,
    (v - c / 2 < w)%Q ∧ (w <= v + c / 2 + 2 * c * (1 # 100000))%Q in
  (0 < c)%Q →
  inside (Scene3D.x p) → inside (Scene3D.z p) →
  Scene3D.floor_within kx (Scene3D.hit_sum m (Scene3D.x p)) →
  Scene3D.floor_within kz (Scene3D.hit_sum m (Scene3D.z p)) →
  (let cl := Scene3D.coords_of_floors m (Scene3D.FlInt kx) (Scene3D.FlInt kz) in
   let q := Scene3D.meshPosition m cl.1 cl.2 in
   near (Scene3D.x p) (Scene3D.x q) ∧ near (Scene3D.z p) (Scene3D.z q)) ∧
  (let q := Scene3D.meshPosition m (Scene3D.hit_cell m p).1
              (Scene3D.hit_cell m p).2 in
   near (Scene3D.x p) (Scene3D.x q) ∧ near (Scene3D.z p) (Scene3D.z q)).
Proof.
  intros c half inside near Hc [Hx1 Hx2] [Hz1 Hz2] Hkx Hkz.
  split; split.
  - exact (SceneAxis.axis_under_pointer (Scene3D.n m) kx c (Scene3D.x p)
             Hc Hx1 Hx2 Hkx).
  - exact (SceneAxis.axis_under_pointer (Scene3D.n m) kz c (Scene3D.z p)
             Hc Hz1 Hz2 Hkz).
  - exact (SceneAxis.axis_under_pointer (Scene3D.n m) _ c (Scene3D.x p)
             Hc Hx1 Hx2 (SceneAxis.floor_within_exact _)).
  - exact (SceneAxis.axis_under_pointer (Scene3D.n m) _ c (Scene3D.z p)
             Hc Hz1 Hz2 (SceneAxis.floor_within_exact _)).
Qed.

Lemma scene_mesh_under_pointer_witness :
  let m := Scene3D.Model 24 2 [] in
  let p := Scene3D.Point (999979999999999 # 1000000000000000) (-1 # 3) in
  let q := Scene3D.meshPosition m 12 11 in
  Scene3D.hit_cell m p = (11, 11) ∧
  Scene3D.coords_of_floors m (Scene3D.FlInt 12) (Scene3D.FlInt 11) = (12, 11) ∧
  (Scene3D.x q == 2)%Q ∧
  (Scene3D.x p - 1 < Scene3D.x q)%Q ∧
  (Scene3D.x q <= Scene3D.x p + 1 + 2 * 2 * (1 # 100000))%Q.
Proof.
  intros m p q. split; [reflexivity|]. split; [reflexivity|].
  split; [reflexivity|].
  destruct (scene_mesh_under_pointer m p 12 11) as [[[Ha Hb] _] _].
  - reflexivity.
  - split; [discriminate | reflexivity].
  - split; [discriminate | reflexivity].
  - split; [discriminate | reflexivity].
  - split; [discriminate | reflexivity].
  - split; [exact Ha | exact Hb].
Defined.

(** Pointer hits reach only part of the grid.  The placement plane spans
    from minus half a cell to [n * cell] minus half a cell, and the
    listener shifts a hit by [n * cell / 2 - cell / 2] before it divides;
    so for a grid of at least 2 cells a side every point of the plane is
    read as a cell whose indices are at least [(n - 2) / 2].  Cells with a
    smaller index get no item from the pointer. *)
Theorem scene_plane_reaches_upper_cells m p :
  (0 < Scene3D.cell m)%Q →
  2 ≤ Scene3D.n m →
  Scene3D.on_plane m p →
  (Scene3D.n m - 2) / 2 ≤ (Scene3D.hit_cell m p).1 ≤ Scene3D.n m - 1 ∧
  (Scene3D.n m - 2) / 2 ≤ (Scene3D.hit_cell m p).2 ≤ Scene3D.n m - 1.
Proof.
  intros Hc Hn (Hx & _ & Hz & _). split.
  - exact (SceneAxis.axis_of_plane (Scene3D.n m) (Scene3D.cell m)
             (Scene3D.x p) Hc Hn Hx).
  - exact (SceneAxis.axis_of_plane (Scene3D.n m) (Scene3D.cell m)
             (Scene3D.z p) Hc Hn Hz).
Qed.

Lemma scene_plane_reaches_upper_cells_witness :
  let m := Scene3D.Model 24 2 [] in
  let p := Scene3D.Point (-1) (-1) in
  Scene3D.hit_cell m p = (11, 11) ∧
  11 ≤ (Scene3D.hit_cell m p).1 ≤ 23.
Proof.
  intros m p. split; [reflexivity|].
  apply (scene_plane_reaches_upper_cells m p).
  - reflexivity.
  - simpl. lia.
  - repeat split; discriminate.
Defined.

(** ** The flat editor: what is exported *)

Module FlatExport.
Import Flat.

Lemma mapM_all_Some {A B} (f : A → option B) (h : A → B) (l : list A) :
  (∀ a, a ∈ l → f a = Some (h a)) → mapM f l = Some (h <$> l).
Proof.
  intros Hf. apply mapM_Some, Forall2_fmap_r, Forall_Forall2_diag.
  by apply Forall_forall.
Qed.

Lemma imap_as_seq {A B} (f : nat → A → B) (d : A) (l : list A) :
  imap f l = (λ i, f i (default d (l !! i))) <$> seq 0 (length l).
Proof.
  revert f. induction l as [|a l IH]; intros f; [reflexivity|].
  rewrite imap_cons, IH. simpl. f_equal.
  rewrite <- fmap_S_seq, <- list_fmap_compose. by apply list_fmap_ext.
Qed.

(** Rows of [g] laid end to end. *)
Lemma concat_rows {B} (d : nat → B) (g r : nat) :
  concat ((λ y, (λ x, d (y * g + x)%nat) <$> seq 0 g) <$> seq 0 r) =
  d <$> seq 0 (r * g).
Proof.
  induction r as [|r IH]; [reflexivity|].
  rewrite seq_S, fmap_app, concat_app, IH.
  change (S r * g)%nat with (g + r * g)%nat.
  rewrite (Nat.add_comm g), seq_app, fmap_app. f_equal.
  simpl. rewrite app_nil_r.
  pose proof (fmap_add_seq (r * g) 0 g) as Hseq.
  rewrite Nat.add_0_r in Hseq.
  rewrite <- Hseq, <- list_fmap_compose. by apply list_fmap_ext.
Qed.

Lemma seq_elem_lt (i n : nat) : i ∈ seq 0 n → (i < n)%nat.
Proof. rewrite list_elem_of_In, in_seq. lia. Qed.

(** The loops of the image export read the cells in the order of the
    array: row [y], column [x] is cell [y * g + x]. *)
Lemma exportImage_cells (s : state) (g : nat) :
  g = Z.to_nat (gridSize s) →
  length (cells (model s)) = (g * g)%nat →
  mapM (λ y,
     mapM (λ x, draw_cell (cellPx s) x y <$> cells (model s) !! (y * g + x)%nat)
          (seq 0 g))
    (seq 0 g) =
  Some ((λ y, (λ x, draw_cell (cellPx s) ((y * g + x) `mod` g) ((y * g + x) / g)
                      (default (Tile "empty" None)
                         (cells (model s) !! (y * g + x)%nat)))
              <$> seq 0 g) <$> seq 0 g).
Proof.
  intros Hg Hlen. apply mapM_all_Some. intros y Hy.
  apply mapM_all_Some. intros x Hx.
  apply seq_elem_lt in Hy, Hx.
  destruct (lookup_lt_is_Some_2 (cells (model s)) (y * g + x)) as [c Hc];
    [rewrite Hlen; nia|].
  rewrite Hc. simpl. do 2 f_equal.
  - rewrite Nat.add_comm, Nat.Div0.mod_add. symmetry. by apply Nat.mod_small.
  - rewrite Nat.add_comm, Nat.div_add by lia.
    rewrite Nat.div_small by assumption. reflexivity.
Qed.

End FlatExport.

(** The image export of the flat editor draws the array of cells row by
    row.  In a state the editor gets into, with a grid size that is not
    negative, the export goes through: after the background, which covers
    the canvas as its width and height read back, it draws cell [i] of the
    model, for each [i] in order, as the square of column [i mod n] and row
    [i / n].  The canvas is the square of side [gridSize * cellPx] when
    that is between 0 and 2147483647, and has its default size of 300 by
    150 when that is negative (down to -2147483648).  With a grid size that
    is not positive (only the start-up field can give one) the image is
    the bare background. *)
Theorem flat_exportImage_row_major s :
  let g := Z.to_nat (Flat.gridSize s) in
  let side := Flat.gridSize s * Flat.cellPx s in
  let background :=
    Flat.FillRect "#07311f" 0 0
      (Flat.canvas_reflect 300 side) (Flat.canvas_reflect 150 side) in
  (Flat.reachable s → 0 ≤ Flat.gridSize s →
   Flat.exportImage s =
     Some (background ::
           concat (imap (λ i c, Flat.draw_cell (Flat.cellPx s)
                                  (i `mod` g) (i / g) c)
                        (Flat.cells (Flat.model s))))) ∧
  (0 ≤ side ≤ 2147483647 →
   background = Flat.FillRect "#07311f" 0 0 side side) ∧
  (-2147483648 ≤ side < 0 →
   background = Flat.FillRect "#07311f" 0 0 300 150) ∧
  (Flat.gridSize s ≤ 0 → Flat.exportImage s = Some [background]).
Proof.
  intros g side background. split; [|split; [|split]].
  - intros Hs Hg0. destruct (FlatInv.flat_reachable_Inv s Hs) as [_ Hc _ _].
    assert (Hlen : length (Flat.cells (Flat.model s)) = (g * g)%nat).
    { rewrite Hc. subst g. by rewrite Z2Nat.inj_mul. }
    unfold Flat.exportImage. cbv zeta. fold g.
    rewrite (FlatExport.exportImage_cells s g eq_refl Hlen).
    cbn [mbind option_bind]. fold side. fold background. do 2 f_equal.
    rewrite (FlatExport.concat_rows
               (λ i, Flat.draw_cell (Flat.cellPx s) (i `mod` g) (i / g)
                       (default (Flat.Tile "empty" None)
                          (Flat.cells (Flat.model s) !! i))) g g).
    rewrite (FlatExport.imap_as_seq _ (Flat.Tile "empty" None)), Hlen.
    reflexivity.
  - intros Hside. subst background. unfold Flat.canvas_reflect. cbv zeta.
    rewrite Z.mod_small by lia. by rewrite !decide_True by lia.
  - intros Hside. subst background. unfold Flat.canvas_reflect. cbv zeta.
    replace (side `mod` 4294967296) with (side + 4294967296).
    + by rewrite !decide_False by lia.
    + apply (Z.mod_unique _ _ (-1)); lia.
  - intros Hg0. unfold Flat.exportImage. cbv zeta. fold g.
    replace g with 0%nat by (subst g; lia). reflexivity.
Qed.

Lemma flat_exportImage_row_major_witness :
  (let s := default (Flat.init None None)
              (Flat.run [Flat.ToolClick flag; Flat.PointerDown 3]
                 (Flat.init (Some 2) (Some 10))) in
   Flat.exportImage s =
     Some [Flat.FillRect "#07311f" 0 0 20 20;
           Flat.FillRect "#07211a" 0 0 10 10;
           Flat.StrokeRect "rgba(255,255,255,0.03)" 0 0 10 10;
           Flat.FillRect "#07211a" 10 0 10 10;
           Flat.StrokeRect "rgba(255,255,255,0.03)" 10 0 10 10;
           Flat.FillRect "#07211a" 0 10 10 10;
           Flat.StrokeRect "rgba(255,255,255,0.03)" 0 10 10 10;
           Flat.FillRect "#f4d03f" 10 10 10 10;
           Flat.FillMarker "#e01b24" 10 10 10;
           Flat.StrokeRect "rgba(255,255,255,0.03)" 10 10 10 10]) ∧
  (let s := Flat.init (Some (-3)) None in
   Flat.exportImage s = Some [Flat.FillRect "#07311f" 0 0 300 150]).
Proof.
  split.
  - intros s. rewrite (proj1 (flat_exportImage_row_major s)).
    + reflexivity.
    + exists (Some 2), (Some 10), [Flat.ToolClick flag; Flat.PointerDown 3].
      vm_compute. reflexivity.
    + vm_compute. discriminate.
  - intros s.
    rewrite (proj2 (proj2 (proj2 (flat_exportImage_row_major s)))).
    + rewrite (proj1 (proj2 (proj2 (flat_exportImage_row_major s))));
        [reflexivity|].
      vm_compute. split; [discriminate | reflexivity].
    + vm_compute. discriminate.
Defined.

Lemma string_length_append (a b : string) :
  String.length (a +:+ b) = (String.length a + String.length b)%nat.
Proof. induction a as [|ch a IH]; simpl; [reflexivity|]. by rewrite IH. Qed.

(** A download called after a field that may be empty keeps a name before
    its extension. *)
Lemma download_has_a_name (name fallback : string) :
  fallback ≠ "" →
  (if decide (name = "") then fallback else name) +:+ ".json" ≠ ".json".
Proof.
  intros Hf Heq. apply (f_equal String.length) in Heq.
  rewrite string_length_append in Heq. simpl in Heq.
  case_decide as Hname.
  - destruct fallback; [done|]. simpl in Heq. lia.
  - destruct name; [done|]. simpl in Heq. lia.
Qed.

(** The exported JSON document of either editor holds the whole model: read
    back with [JSON.parse] it gives the model of the moment, whatever name
    and date are written in its [meta], and the name written there is never
    empty. *)
Theorem export_json_reads_back :
  (∀ name created s,
     Flat.JSON_parse (Flat.exportJson_payload name created s) =
       Some (Flat.model s) ∧
     ∃ shown rest,
       Flat.exportJson_payload name created s =
         JObj (("meta", JObj [("name", JStr shown); ("created", JStr created)])
               :: rest) ∧
       shown ≠ "" ∧ Flat.exportJson_download name ≠ ".json") ∧
  (∀ name created s,
     Scene3D.JSON_parse (Scene3D.exportJson_payload name created s) =
       Some (Scene3D.model s) ∧
     ∃ shown rest,
       Scene3D.exportJson_payload name created s =
         JObj (("meta", JObj [("name", JStr shown); ("created", JStr created)])
               :: rest) ∧
       shown ≠ "" ∧ Scene3D.exportJson_download name ≠ ".json").
Proof.
  split; intros name created s; split.
  - destruct (Flat.model s) as [g cs] eqn:Hm.
    unfold Flat.exportJson_payload, Flat.JSON_parse. rewrite Hm. simpl.
    by rewrite FlatFacts.parse_stringify_cells.
  - unfold Flat.exportJson_payload, Flat.exportJson_download.
    eexists _, _. split; [reflexivity|].
    split; [by case_decide|]. by apply download_has_a_name.
  - destruct (Scene3D.model s) as [g c its] eqn:Hm.
    unfold Scene3D.exportJson_payload, Scene3D.JSON_parse. rewrite Hm. simpl.
    by rewrite Scene3DFacts.parse_stringify_items.
  - unfold Scene3D.exportJson_payload, Scene3D.exportJson_download.
    eexists _, _. split; [reflexivity|].
    split; [by case_decide|]. by apply download_has_a_name.
Qed.

(** The cell size field is clamped on resize like the grid size.  The flat
    editor replaces 0 and what does not parse by 18 and clamps into
    [8, 64]; the three.js editor replaces them by 2 and clamps into
    [1/2, 8], and gives the new model that cell size, which is positive. *)
Theorem resize_clamps_cell_size :
  (∀ v z s,
     Flat.cellPx (Flat.resizeBtn_click v (Some z) s) =
       Z.max 8 (Z.min 64 (if decide (z = 0) then 18 else z))) ∧
  (∀ v px s, 8 ≤ Flat.cellPx (Flat.resizeBtn_click v px s) ≤ 64) ∧
  (∀ v c s,
     let s' := Scene3D.resizeBtn_click v c s in
     (1 # 2 <= Scene3D.cellSize s')%Q ∧ (Scene3D.cellSize s' <= 8)%Q ∧
     (0 < Scene3D.cell (Scene3D.model s'))%Q ∧
     Scene3D.cell (Scene3D.model s') = Scene3D.cellSize s') ∧
  (∀ v s, Scene3D.cellSize (Scene3D.resizeBtn_click v None s) = 2%Q) ∧
  (∀ v q s, (1 # 2 <= q)%Q → (q <= 8)%Q →
     (Scene3D.cellSize (Scene3D.resizeBtn_click v (Some q) s) == q)%Q) ∧
  (∀ v s, Flat.cellPx (Flat.resizeBtn_click v None s) = 18) ∧
  (∀ v s, Flat.cellPx (Flat.resizeBtn_click v (Some 0) s) = 18) ∧
  (∀ v q s,
     Scene3D.cellSize (Scene3D.resizeBtn_click v (Some q) s) =
       Qmax (1 # 2) (Qmin 8 (if decide (Qnum q = 0) then 2 else q))) ∧
  (∀ v q s, Qnum q = 0 →
     Scene3D.cellSize (Scene3D.resizeBtn_click v (Some q) s) = 2%Q).
Proof.
  split; [reflexivity|]. split; [intros; simpl; lia|].
  split; [|split; [reflexivity|split]].
  - intros v c s s'. subst s'. simpl.
    set (q := or_default_Q c 2).
    assert (Hlo : (1 # 2 <= Qmax (1 # 2) (Qmin 8 q))%Q) by apply Q.le_max_l.
    assert (Hhi : (Qmax (1 # 2) (Qmin 8 q) <= 8)%Q).
    { apply Q.max_lub; [discriminate|apply Q.le_min_l]. }
    repeat split; try assumption. lra.
  - intros v q s Hlo Hhi.
    change (Scene3D.cellSize (Scene3D.resizeBtn_click v (Some q) s))
      with (Qmax (1 # 2) (Qmin 8 (or_default_Q (Some q) 2))).
    assert (Hq : or_default_Q (Some q) 2 = q).
    { unfold or_default_Q. case_decide as H0; [|reflexivity].
      exfalso. destruct q as [a b]. simpl in H0. subst a.
      unfold Qle in Hlo. simpl in Hlo. lia. }
    rewrite Hq, (Q.min_r 8 q Hhi). apply Q.max_r, Hlo.
  - split; [reflexivity|]. split; [reflexivity|]. split; [reflexivity|].
    intros v q s Hq.
    change (Scene3D.cellSize (Scene3D.resizeBtn_click v (Some q) s))
      with (Qmax (1 # 2) (Qmin 8 (or_default_Q (Some q) 2))).
    unfold or_default_Q. by rewrite decide_True by exact Hq.
Qed.

Lemma resize_clamps_cell_size_witness :
  (Scene3D.cellSize
     (Scene3D.resizeBtn_click None (Some (3 # 2)) (Scene3D.init None None))
   == 3 # 2)%Q ∧
  Scene3D.cellSize
    (Scene3D.resizeBtn_click None (Some (0 # 7)) (Scene3D.init None None)) = 2%Q.
Proof.
  split.
  - apply (proj1 (proj2 (proj2 (proj2 (proj2 resize_clamps_cell_size))))
             None (3 # 2) (Scene3D.init None None)); discriminate.
  - apply (proj2 (proj2 (proj2 (proj2 (proj2 (proj2 (proj2 (proj2
             resize_clamps_cell_size))))))) None (0 # 7)
             (Scene3D.init None None)).
    reflexivity.
Defined.

(** A resize cannot be undone, and nothing from before it can.  In both
    editors the resized state has an empty grid of the new dimension and an
    empty history, whatever the editor held, so that the undo button right
    after it changes nothing. *)
Theorem resize_forgets_history :
  (∀ a b s,
     let s' := Flat.resizeBtn_click a b s in
     Flat.run [Flat.ResizeClick a b; Flat.UndoClick] s = Some s' ∧
     Flat.history s' = [] ∧
     Flat.model s' = Flat.createEmptyModel (Flat.gridSize s') ∧
     Forall (λ c, c = Flat.Tile "empty" None) (Flat.cells (Flat.model s'))) ∧
  (∀ a b s,
     let s' := Scene3D.resizeBtn_click a b s in
     Scene3D.run [Scene3D.ResizeClick a b; Scene3D.UndoClick] s = Some s' ∧
     Scene3D.history s' = [] ∧
     Scene3D.items (Scene3D.model s') = [] ∧
     Scene3D.placementGroup s' = []).
Proof.
  split; intros a b s s'; subst s'.
  - split; [reflexivity|]. split; [reflexivity|]. split; [reflexivity|].
    simpl. apply Forall_replicate. reflexivity.
  - repeat split; reflexivity.
Qed.

(** ** The three.js editor: pointer events that edit nothing, and undo *)

Module SceneIdle.
Import Scene3D.

Lemma same_content_refl s : same_content s s.
Proof. by repeat split. Qed.

Lemma same_content_trans s1 s2 s3 :
  same_content s1 s2 → same_content s2 s3 → same_content s1 s3.
Proof.
  intros (?&?&?&?&?&?&?) (?&?&?&?&?&?&?). repeat split; congruence.
Qed.

Lemma handlePointerEvent_select hit s :
  currentTool s = select → handlePointerEvent hit s = s.
Proof.
  intros Hsel. destruct hit as [p|]; [|reflexivity]. simpl.
  rewrite Hsel. reflexivity.
Qed.

Lemma select_step e s :
  currentTool s = select → is_pointer e = true →
  ∃ s', step e s = Some s' ∧ same_content s s'.
Proof.
  intros Hsel He. destruct e as [hit|hit| | | | |]; try discriminate; simpl.
  - eexists. split; [reflexivity|]. unfold onPointerDown.
    rewrite handlePointerEvent_select by exact Hsel. by repeat split.
  - eexists. split; [reflexivity|]. unfold onPointerMove.
    rewrite handlePointerEvent_select by exact Hsel.
    destruct (_ && _); apply same_content_refl.
  - eexists. split; [reflexivity|]. by repeat split.
Qed.

Lemma miss_step e s :
  misses e = true → ∃ s', step e s = Some s' ∧ same_content s s'.
Proof.
  intros He. destruct e as [[p|]|[p|]| | | | |]; try discriminate; simpl.
  - eexists. split; [reflexivity|]. by repeat split.
  - eexists. split; [reflexivity|]. unfold onPointerMove. simpl.
    destruct (_ && _); apply same_content_refl.
  - eexists. split; [reflexivity|]. by repeat split.
Qed.

Lemma scene_undoBtn_click_snoc s h m :
  history s = h ++ [JSON_stringify m] →
  undoBtn_click s = Some (rebuildPlacementGroup (set_model m (set_history h s))).
Proof.
  intros Hh. apply (Scene3DInv.scene_undoBtn_click_pop s (JSON_stringify m)).
  - rewrite Hh. apply pop_snoc.
  - apply Scene3DFacts.scene_parse_stringify.
Qed.

Lemma scene_undo_times_snoc k s :
  undo_times (S k) s = undo_times k s ≫= undoBtn_click.
Proof.
  revert s. induction k as [|k IH]; intros s.
  - simpl. destruct (undoBtn_click s); reflexivity.
  - change (undo_times (S (S k)) s) with (undoBtn_click s ≫= undo_times (S k)).
    change (undo_times (S k) s) with (undoBtn_click s ≫= undo_times k).
    destruct (undoBtn_click s) as [s1|]; [|reflexivity].
    simpl. apply IH.
Qed.

(** An edit pushes the snapshot of the model it finds. *)
Lemma edit_history t p s :
  t ≠ select →
  history (handlePointerEvent (Some p) (tool_click t s)) =
    push_capped 200 (JSON_stringify (model s)) (history s).
Proof.
  intros Ht. simpl. repeat case_decide; done.
Qed.

End SceneIdle.

(** Pointer events that edit nothing in the three.js editor.  With the
    select tool selected, no run of pointer-downs, moves and pointer-ups,
    wherever they hit, changes the model, the history or the meshes; nor
    does, with any tool, a run of pointer events whose rays all miss the
    placement plane. *)
Theorem scene_pointer_without_edit evs s :
  (Scene3D.currentTool s = select ∧ forallb Scene3D.is_pointer evs = true) ∨
  forallb Scene3D.misses evs = true →
  ∃ s', Scene3D.run evs s = Some s' ∧
        Scene3D.model s' = Scene3D.model s ∧
        Scene3D.history s' = Scene3D.history s ∧
        Scene3D.placementGroup s' = Scene3D.placementGroup s ∧
        Scene3D.currentTool s' = Scene3D.currentTool s.
Proof.
  intros Hcase.
  assert (Hrun : ∃ s', Scene3D.run evs s = Some s' ∧ Scene3D.same_content s s').
  { revert s Hcase. induction evs as [|e evs IH]; intros s Hcase.
    - exists s. split; [reflexivity|apply SceneIdle.same_content_refl].
    - assert (Hstep : ∃ s1, Scene3D.step e s = Some s1 ∧
                            Scene3D.same_content s s1).
      { destruct Hcase as [[Hsel Hevs] | Hevs];
          simpl in Hevs; apply andb_true_iff in Hevs as [He _].
        - by apply SceneIdle.select_step.
        - by apply SceneIdle.miss_step. }
      destruct Hstep as (s1 & Hstep & Hsame).
      destruct (IH s1) as (s' & Hrun' & Hsame').
      { destruct Hcase as [[Hsel Hevs] | Hevs];
          simpl in Hevs; apply andb_true_iff in Hevs as [_ Hevs].
        - left. split; [|exact Hevs].
          destruct Hsame as (_ & _ & _ & Ht & _). congruence.
        - by right. }
      exists s'. split.
      + simpl. rewrite Hstep. exact Hrun'.
      + by eapply SceneIdle.same_content_trans. }
  destruct Hrun as (s' & Hrun & Hm & Hh & Hg & Ht & _).
  exists s'. auto.
Qed.

Lemma scene_pointer_without_edit_witness :
  let s := Scene3D.tool_click select
             (Scene3D.addItem "flag" 11 11 (Scene3D.init None None)) in
  ∃ s', Scene3D.run [Scene3D.PointerDown (Some (Scene3D.Point 0 0));
                     Scene3D.PointerMove (Some (Scene3D.Point 5 5));
                     Scene3D.PointerUp] s = Some s' ∧
        Scene3D.items (Scene3D.model s') = [Scene3D.Item "flag" 11 11] ∧
        length (Scene3D.history s') = 1%nat.
Proof.
  intros s.
  destruct (scene_pointer_without_edit
              [Scene3D.PointerDown (Some (Scene3D.Point 0 0));
               Scene3D.PointerMove (Some (Scene3D.Point 5 5));
               Scene3D.PointerUp] s) as (s' & Hrun & Hm & Hh & _).
  - left. split; reflexivity.
  - exists s'. split; [exact Hrun|]. rewrite Hm, Hh. split; reflexivity.
Defined.

(** As many undos as there were edits bring the three.js editor back:
    after any run of pointer edits, each with a paint tool or the eraser,
    for which the history had room, that many presses of the undo button
    all go through and end on the model and the history the run started
    from, with one mesh per item of that model when there was an edit. *)
Theorem scene_undo_all edits s :
  Forall (λ e, e.1 ≠ select) edits →
  (length (Scene3D.history s) + length edits ≤ 200)%nat →
  ∃ s', Scene3D.undo_times (length edits) (Scene3D.edit_all edits s) = Some s' ∧
        Scene3D.model s' = Scene3D.model s ∧
        Scene3D.history s' = Scene3D.history s ∧
        (edits ≠ [] →
         Scene3D.placementGroup s' = Scene3D.items (Scene3D.model s)).
Proof.
  revert s. induction edits as [|[t p] edits IH]; intros s Hsel Hroom.
  - exists s. repeat split; try reflexivity. intros Hne. by destruct Hne.
  - apply Forall_cons in Hsel as [Ht Hsel]. simpl in Ht, Hroom.
    set (s1 := Scene3D.handlePointerEvent (Some p) (Scene3D.tool_click t s)).
    assert (Hh1 : Scene3D.history s1 =
              Scene3D.history s ++ [Scene3D.JSON_stringify (Scene3D.model s)]).
    { subst s1. rewrite (SceneIdle.edit_history t p s Ht).
      apply push_capped_room. lia. }
    destruct (IH s1 Hsel) as (s2 & Hundo & Hm2 & Hh2 & _).
    { rewrite Hh1, length_app. simpl. lia. }
    change (Scene3D.edit_all ((t, p) :: edits) s) with (Scene3D.edit_all edits s1).
    change (length ((t, p) :: edits)) with (S (length edits)).
    rewrite SceneIdle.scene_undo_times_snoc, Hundo. simpl.
    rewrite Hh1 in Hh2.
    rewrite (SceneIdle.scene_undoBtn_click_snoc s2 _ _ Hh2).
    eexists. split; [reflexivity|]. simpl. auto.
Qed.

Lemma scene_undo_all_witness :
  let s := Scene3D.init None None in
  let edits := [(pitch, Scene3D.Point 0 0); (stand, Scene3D.Point 0 0);
                (erase, Scene3D.Point 0 0); (flag, Scene3D.Point 2 2)] in
  Scene3D.items (Scene3D.model (Scene3D.edit_all edits s)) =
    [Scene3D.Item "flag" 12 12] ∧
  ∃ s', Scene3D.undo_times 4 (Scene3D.edit_all edits s) = Some s' ∧
        Scene3D.model s' = Scene3D.model s ∧ Scene3D.history s' = [].
Proof.
  intros s edits. split; [vm_compute; reflexivity|].
  destruct (scene_undo_all edits s) as (s' & Hundo & Hm & Hh & _).
  - repeat constructor; discriminate.
  - simpl. lia.
  - exists s'. split; [exact Hundo|]. split; [exact Hm|exact Hh].
Defined.
